(** * DisplacedProblem: the displaced-mesh coupling layer

    A shallow embedding of [framework/src/problems/DisplacedProblem.C].

    The displaced problem owns a displaced mesh and two displaced systems and
    drives a number of collaborators (the per-thread [Assembly] objects, the
    geometric search data, the Dirac kernel info, libMesh's meshes).  Each
    member function is embedded as a computation over the state of the
    displaced problem; every call it makes on a collaborator is appended, in
    program order, to the call record [calls] of that state.

    Conventions.  Pointers to elements and nodes are the handles of these
    objects.  The [TIME_SECTION] timers leave no trace.  What libMesh
    implements ([MeshBase], [Elem]) is an interface, [LibMesh]; what the
    reference problem answers is a record of answers, [FEProblemBase.t].
    The two node visitors, whose sources are not part of this development,
    are modelled from the specification and marked as such.  *)

From Stdlib Require Import Floats.
From stdpp Require Import gmap strings list fin_maps.

#[local] Set Warnings "-inexact-float".
#[local] Open Scope N_scope.

(** ** Basic types *)

(** [Real] is libMesh's default: an IEEE binary64 number. *)
Abbreviation Real := float (only parsing).
(** A point is the list of its coordinates. *)
Abbreviation Point := (list float) (only parsing).
Abbreviation dof_id_type := N (only parsing).
Abbreviation SubdomainID := N (only parsing).
Abbreviation BoundaryID := Z (only parsing).
Abbreviation THREAD_ID := nat (only parsing).
(** [const Elem *] and [const Node *] arguments: the handle of the object. *)
Abbreviation Elem := N (only parsing).
Abbreviation NodePtr := N (only parsing).
Abbreviation NumericVector := (list float) (only parsing).

(** [Moose::CoordinateSystemType] (MooseTypes.h). *)
Inductive CoordinateSystemType := COORD_XYZ | COORD_RZ | COORD_RSPHERICAL.

(** A node of a mesh: the process that owns it and its coordinates.  Nodes are
    stored under their id. *)
Record Node := mkNode { processor_id : N; coord : Point }.

Definition set_coord (p : Point) (n : Node) : Node :=
  {| processor_id := processor_id n; coord := p |}.

(** ** libMesh, as seen from the displaced problem

    A libMesh mesh holds the nodes stored on this process and a parallel
    distribution state [D] that the displaced problem never inspects but
    through the member functions below. *)
Record MeshBase (D : Type) := mkMeshBase {
  nodes : gmap N Node;
  distribution : D
}.
Arguments mkMeshBase {D} _ _.
Arguments nodes {D} _.
Arguments distribution {D} _.

(** The member functions of [MeshBase] and [Elem] that DisplacedProblem.C
    calls.  They live in libMesh, so they are an interface here. *)
Class LibMesh (D : Type) := {
  is_serial : MeshBase D → bool;
  is_serial_on_zero : MeshBase D → bool;
  allgather : MeshBase D → MeshBase D;
  gather_to_zero : MeshBase D → MeshBase D;
  (** [elem->neighbor_ptr(side)]; [None] is the null pointer. *)
  neighbor_ptr : Elem → N → option Elem;
  (** [neighbor->which_neighbor_am_i(elem)] *)
  which_neighbor_am_i : Elem → Elem → N
}.

Record MooseMesh (D : Type) := mkMooseMesh { getMesh : MeshBase D }.
Arguments mkMooseMesh {D} _.
Arguments getMesh {D} _.

(** [NodeRange(m.nodes_begin(), m.nodes_end(), 1)]: every node stored in the
    mesh, whoever owns it. *)
Definition NodeRange {D} (m : MeshBase D) : list N := (map_to_list (nodes m)).*1.

(** ** The reference problem [_mproblem]

    What the displaced problem reads from the [FEProblemBase] it mirrors. *)
Module FEProblemBase.
Record t := mk {
  isTransient : bool;
  getCoordSystem : SubdomainID → CoordinateSystemType;
  converged : bool;
  hasVariable : string → bool;
  hasJacobian : bool;
  constJacobian : bool;
  (** [getNonlinearSystemBase().currentSolution()] *)
  nl_currentSolution : NumericVector;
  (** [getAuxiliarySystem().currentSolution()] *)
  aux_currentSolution : NumericVector;
  (** The value at a node of the variable of that name, read through the
      reference DOF maps in a pair (primary, auxiliary) of solution vectors. *)
  nodal_value : NumericVector → NumericVector → string → dof_id_type → Real
}.
End FEProblemBase.

(** ** The displaced systems [_displaced_nl] and [_displaced_aux]

    A displaced system stores its own variables and its own solution vector.
    Field variables and scalar variables are asked for separately
    ([hasVariable], [hasScalarVariable]), so they are kept apart. *)
Inductive Sys := displaced_nl | displaced_aux.

Module DisplacedSystem.
Record t := mk {
  name : string;
  (** the field variables of the system *)
  variables : gset string;
  (** its scalar variables *)
  scalar_variables : gset string;
  (** [*sys().solution] *)
  solution : NumericVector
}.

Definition hasVariable (s : t) (var_name : string) : bool :=
  bool_decide (var_name ∈ variables s).

Definition hasScalarVariable (s : t) (var_name : string) : bool :=
  bool_decide (var_name ∈ scalar_variables s).

Definition addVariable (var_name : string) (s : t) : t :=
  {| name := name s; variables := {[var_name]} ∪ variables s;
     scalar_variables := scalar_variables s; solution := solution s |}.

Definition addScalarVariable (var_name : string) (s : t) : t :=
  {| name := name s; variables := variables s;
     scalar_variables := {[var_name]} ∪ scalar_variables s; solution := solution s |}.

Definition set_solution (v : NumericVector) (s : t) : t :=
  {| name := name s; variables := variables s;
     scalar_variables := scalar_variables s; solution := v |}.
End DisplacedSystem.

(** ** Calls on collaborators *)

(** Member functions of a displaced system that only the system itself
    implements. *)
Module SystemBase.
Inductive call :=
| update
| prepare (tid : THREAD_ID)
| prepareFace (tid : THREAD_ID) (resize_data : bool)
| prepareNeighbor (tid : THREAD_ID)
| reinitElem (elem : Elem) (tid : THREAD_ID)
| reinitElemFace (elem : Elem) (side : N) (bnd_id : BoundaryID) (tid : THREAD_ID)
| reinitNeighborFace (elem : Elem) (side : N) (bnd_id : BoundaryID) (tid : THREAD_ID)
| reinitNeighbor (elem : Elem) (tid : THREAD_ID)
| reinitNode (node : NodePtr) (tid : THREAD_ID)
| reinitNodeFace (node : NodePtr) (bnd_id : BoundaryID) (tid : THREAD_ID)
| reinitNodes (nodes : list dof_id_type) (tid : THREAD_ID)
| reinitNodesNeighbor (nodes : list dof_id_type) (tid : THREAD_ID)
| reinitScalars (tid : THREAD_ID).
End SystemBase.

(** Member functions of the per-thread [Assembly]. *)
Module Assembly.
Inductive call :=
| reinit (elem : Elem)
| reinit_side (elem : Elem) (side : N)
| reinit_node (node : NodePtr)
| reinitAtPhysical (elem : Elem) (physical_points : list Point)
| reinitElemAndNeighbor (elem : Elem) (side : N) (neighbor : Elem) (neighbor_side : N)
| reinitNeighborAtPhysical_side (neighbor : Elem) (neighbor_side : N)
                                (physical_points : list Point)
| reinitNeighborAtPhysical (neighbor : Elem) (physical_points : list Point)
| prepare
| prepareNeighbor
| prepareJacobianBlock
| prepareResidual
| prepareBlock (ivar jvar : N) (dof_indices : list dof_id_type).
End Assembly.

Inductive MeshId := the_displaced_mesh | the_reference_mesh.

Module MeshCall.
Inductive call := allgather | gather_to_zero | meshChanged.
End MeshCall.

Module GeometricSearchData.
Inductive call := update | reinit.
End GeometricSearchData.

Module EquationSystems.
Inductive call := init | reinit.
End EquationSystems.

(** The loop bodies handed to [Threads::parallel_reduce]. *)
Inductive Visitor := UpdateDisplacedMeshThread | ResetDisplacedMeshThread.

Inductive Call :=
| on_system (s : Sys) (c : SystemBase.call)
| on_assembly (tid : THREAD_ID) (c : Assembly.call)
| on_mesh (m : MeshId) (c : MeshCall.call)
| on_geometric_search_data (c : GeometricSearchData.call)
| on_eq (c : EquationSystems.call)
(** [_dirac_kernel_info.updatePointLocator(_mesh)] *)
| updatePointLocator
| parallel_reduce (node_range : list dof_id_type) (body : Visitor).

(** What a variable or system lookup hands back: a reference into the storage
    of one of the two displaced systems. *)
Inductive FieldType := RealValue | RealVectorValue.

Inductive VariableRef :=
| FieldVariable (s : Sys) (T : FieldType) (tid : THREAD_ID) (var_name : string)
| ScalarVariable (s : Sys) (tid : THREAD_ID) (var_name : string).

Inductive SystemRef := system (s : Sys).

(** ** Computations

    A member function either returns a value in a new state, stops the
    process with [mooseError], or runs into undefined behaviour (an index
    past the end of [_assembly], a null pointer dereferenced). *)
Inductive Outcome (S A : Type) :=
| Returned (a : A) (s : S)
| Fatal (msg : string)
| Undefined.
Arguments Returned {S A} _ _.
Arguments Fatal {S A} _.
Arguments Undefined {S A}.

Definition M (S A : Type) := S → Outcome S A.

Definition ret {S A} (a : A) : M S A := λ s, Returned a s.

Definition bind {S A B} (c : M S A) (k : A → M S B) : M S B :=
  λ s, match c s with
       | Returned a s' => k a s'
       | Fatal msg => Fatal msg
       | Undefined => Undefined
       end.

Definition get {S} : M S S := λ s, Returned s s.
Definition modify {S} (f : S → S) : M S unit := λ s, Returned tt (f s).
Definition mooseError {S A} (msg : string) : M S A := λ _, Fatal msg.
Definition undefined {S A} : M S A := λ _, Undefined.
Definition when {S} (b : bool) (c : M S unit) : M S unit := if b then c else ret tt.

Declare Scope dp_scope.
Delimit Scope dp_scope with dp.
Notation "'let*' x ':=' c 'in' k" := (bind c (λ x, k))
  (at level 10, x name, c at level 100, k at level 200) : dp_scope.
Notation "c >> k" := (bind c (λ _, k))
  (at level 100, k at level 200, right associativity) : dp_scope.
#[local] Open Scope dp_scope.

(** ** The displaced problem *)
Module DisplacedProblem.
Section WithLibMesh.
Context {D : Type} `{!LibMesh D}.

(** The data members of [DisplacedProblem] that its member functions read
    or write, and the record of the calls made on collaborators. *)
Record t := mk {
  _mproblem : FEProblemBase.t;
  (** the displaced mesh *)
  _mesh : MooseMesh D;
  (** the mesh of [_mproblem] *)
  _ref_mesh : MooseMesh D;
  _displacements : list string;
  _displaced_nl : DisplacedSystem.t;
  _displaced_aux : DisplacedSystem.t;
  (** [const NumericVector<Number> *]; [None] is the null pointer *)
  _nl_solution : option NumericVector;
  _aux_solution : option NumericVector;
  (** [_dirac_kernel_info.getPoints()]: for an element, its points and
      their multiplicities *)
  _dirac_kernel_info : gmap N (list Point * list N);
  (** [_assembly.size()], which the constructor makes [libMesh::n_threads()] *)
  _assembly_size : nat;
  calls : list Call
}.

Definition set_mesh (m : MooseMesh D) (w : t) : t :=
  mk (_mproblem w) m (_ref_mesh w) (_displacements w) (_displaced_nl w) (_displaced_aux w)
     (_nl_solution w) (_aux_solution w) (_dirac_kernel_info w) (_assembly_size w) (calls w).
Definition set_ref_mesh (m : MooseMesh D) (w : t) : t :=
  mk (_mproblem w) (_mesh w) m (_displacements w) (_displaced_nl w) (_displaced_aux w)
     (_nl_solution w) (_aux_solution w) (_dirac_kernel_info w) (_assembly_size w) (calls w).
Definition set_displaced_nl (s : DisplacedSystem.t) (w : t) : t :=
  mk (_mproblem w) (_mesh w) (_ref_mesh w) (_displacements w) s (_displaced_aux w)
     (_nl_solution w) (_aux_solution w) (_dirac_kernel_info w) (_assembly_size w) (calls w).
Definition set_displaced_aux (s : DisplacedSystem.t) (w : t) : t :=
  mk (_mproblem w) (_mesh w) (_ref_mesh w) (_displacements w) (_displaced_nl w) s
     (_nl_solution w) (_aux_solution w) (_dirac_kernel_info w) (_assembly_size w) (calls w).
Definition set_nl_solution (v : option NumericVector) (w : t) : t :=
  mk (_mproblem w) (_mesh w) (_ref_mesh w) (_displacements w) (_displaced_nl w)
     (_displaced_aux w) v (_aux_solution w) (_dirac_kernel_info w) (_assembly_size w)
     (calls w).
Definition set_aux_solution (v : option NumericVector) (w : t) : t :=
  mk (_mproblem w) (_mesh w) (_ref_mesh w) (_displacements w) (_displaced_nl w)
     (_displaced_aux w) (_nl_solution w) v (_dirac_kernel_info w) (_assembly_size w)
     (calls w).
Definition set_dirac_kernel_info (d : gmap N (list Point * list N)) (w : t) : t :=
  mk (_mproblem w) (_mesh w) (_ref_mesh w) (_displacements w) (_displaced_nl w)
     (_displaced_aux w) (_nl_solution w) (_aux_solution w) d (_assembly_size w) (calls w).
Definition set_calls (l : list Call) (w : t) : t :=
  mk (_mproblem w) (_mesh w) (_ref_mesh w) (_displacements w) (_displaced_nl w)
     (_displaced_aux w) (_nl_solution w) (_aux_solution w) (_dirac_kernel_info w)
     (_assembly_size w) l.

(** A call on a collaborator goes on the record. *)
Definition invoke (c : Call) : M t unit := modify (λ w, set_calls (calls w ++ [c]) w).

(** [_displaced_nl.f(..)] and [_displaced_aux.f(..)] *)
Definition on (s : Sys) (c : SystemBase.call) : M t unit := invoke (on_system s c).

(** [_assembly[tid]->f(..)]: indexing past the end of the vector is
    undefined. *)
Definition assembly (tid : THREAD_ID) (c : Assembly.call) : M t unit :=
  let* w := get in
  if bool_decide (tid < _assembly_size w)%nat then invoke (on_assembly tid c) else undefined.

(** *** The node visitors *)

(** Modelled from the spec: the sum reference coordinate + offset that
    UpdateDisplacedMeshThread, whose source is absent, writes.  The offset has
    one entry for each displacement variable; a direction without an entry
    keeps its coordinate. *)
Fixpoint add_offset (p offset : list float) : list float :=
  match p, offset with
  | x :: p', d :: offset' => (x + d)%float :: add_offset p' offset'
  | _, [] => p
  | [], _ :: _ => []
  end.

(** Modelled from the spec: the body of UpdateDisplacedMeshThread, whose
    source file is not part of this development.  The visitor is built from
    the reference problem and the displaced problem, of which it reads the
    displacement variables, the reference mesh and the two solution
    pointers.  For a node of the displaced mesh it evaluates each
    displacement variable at that node, takes these values as the offset
    vector, and writes reference coordinate + offset into the displaced
    node.  A node without a counterpart in the reference mesh is left
    alone. *)
Definition UpdateDisplacedMeshThread_onNode (mproblem : FEProblemBase.t)
    (displacements : list string) (ref_mesh : MooseMesh D) (nl aux : NumericVector)
    (store : gmap N Node) (id : N) : gmap N Node :=
  match nodes (getMesh ref_mesh) !! id with
  | Some reference_node =>
      let offset := map (λ v, FEProblemBase.nodal_value mproblem nl aux v id) displacements in
      alter (set_coord (add_offset (coord reference_node) offset)) id store
  | None => store
  end.

(** Modelled from the spec: the body of ResetDisplacedMeshThread, whose
    source file is not part of this development.  It writes the reference
    coordinate into the displaced node, discarding the offset. *)
Definition ResetDisplacedMeshThread_onNode (ref_mesh : MooseMesh D)
    (store : gmap N Node) (id : N) : gmap N Node :=
  match nodes (getMesh ref_mesh) !! id with
  | Some reference_node => alter (set_coord (coord reference_node)) id store
  | None => store
  end.

Definition set_nodes (store : gmap N Node) (w : t) : t :=
  set_mesh (mkMooseMesh (mkMeshBase store (distribution (getMesh (_mesh w))))) w.

(** [Threads::parallel_reduce(node_range, body)]: the body runs on every
    node of the range; the nodes are independent, so the split into
    sub-ranges does not show and the reduction is a plain loop.  The
    displacing body dereferences the two solution pointers. *)
Definition Threads_parallel_reduce (node_range : list N) (body : Visitor) : M t unit :=
  invoke (parallel_reduce node_range body) >>
  let* w := get in
  match body with
  | UpdateDisplacedMeshThread =>
      match _nl_solution w, _aux_solution w with
      | Some nl, Some aux =>
          modify (set_nodes
                    (foldl (UpdateDisplacedMeshThread_onNode
                              (_mproblem w) (_displacements w) (_ref_mesh w) nl aux)
                           (nodes (getMesh (_mesh w))) node_range))
      | _, _ => undefined
      end
  | ResetDisplacedMeshThread =>
      modify (set_nodes (foldl (ResetDisplacedMeshThread_onNode (_ref_mesh w))
                               (nodes (getMesh (_mesh w))) node_range))
  end.

(** *** Member functions, in the order of DisplacedProblem.C *)

Definition isTransient : M t bool :=
  let* w := get in ret (FEProblemBase.isTransient (_mproblem w)).

Definition getCoordSystem (sid : SubdomainID) : M t CoordinateSystemType :=
  let* w := get in ret (FEProblemBase.getCoordSystem (_mproblem w) sid).

Definition syncSolutions : M t unit :=
  modify (λ w, set_displaced_nl
    (DisplacedSystem.set_solution (FEProblemBase.nl_currentSolution (_mproblem w))
                                  (_displaced_nl w)) w) >>
  modify (λ w, set_displaced_aux
    (DisplacedSystem.set_solution (FEProblemBase.aux_currentSolution (_mproblem w))
                                  (_displaced_aux w)) w) >>
  on displaced_nl SystemBase.update >>
  on displaced_aux SystemBase.update.

(** The overload [syncSolutions(soln, aux_soln)]. *)
Definition syncSolutions2 (soln aux_soln : NumericVector) : M t unit :=
  modify (λ w, set_displaced_nl (DisplacedSystem.set_solution soln (_displaced_nl w)) w) >>
  modify (λ w, set_displaced_aux (DisplacedSystem.set_solution aux_soln (_displaced_aux w)) w) >>
  on displaced_nl SystemBase.update >>
  on displaced_aux SystemBase.update.

Definition refMesh (w : t) : MooseMesh D := _ref_mesh w.

(** [this->refMesh().getMesh().allgather()] *)
Definition refMesh_allgather : M t unit :=
  invoke (on_mesh the_reference_mesh MeshCall.allgather) >>
  modify (λ w, set_ref_mesh (mkMooseMesh (allgather (getMesh (refMesh w)))) w).

(** [this->refMesh().getMesh().gather_to_zero()] *)
Definition refMesh_gather_to_zero : M t unit :=
  invoke (on_mesh the_reference_mesh MeshCall.gather_to_zero) >>
  modify (λ w, set_ref_mesh (mkMooseMesh (gather_to_zero (getMesh (refMesh w)))) w).

(** [updateMesh()].  The two solution pointers are set to the reference
    problem's current solutions, which [syncSolutions] has just read. *)
Definition updateMesh : M t unit :=
  syncSolutions >>
  modify (λ w, set_nl_solution (Some (FEProblemBase.nl_currentSolution (_mproblem w))) w) >>
  modify (λ w, set_aux_solution (Some (FEProblemBase.aux_currentSolution (_mproblem w))) w) >>
  (let* w := get in
   when (is_serial (getMesh (_mesh w)) && negb (is_serial (getMesh (refMesh w))))
        refMesh_allgather) >>
  (let* w := get in
   when (is_serial_on_zero (getMesh (_mesh w))
         && negb (is_serial_on_zero (getMesh (refMesh w))))
        refMesh_gather_to_zero) >>
  (let* w := get in
   let node_range := NodeRange (getMesh (_mesh w)) in
   Threads_parallel_reduce node_range UpdateDisplacedMeshThread) >>
  invoke (on_geometric_search_data GeometricSearchData.update) >>
  invoke updatePointLocator.

(** The overload [updateMesh(soln, aux_soln)]. *)
Definition updateMesh2 (soln aux_soln : NumericVector) : M t unit :=
  syncSolutions2 soln aux_soln >>
  modify (set_nl_solution (Some soln)) >>
  modify (set_aux_solution (Some aux_soln)) >>
  (let* w := get in
   let node_range := NodeRange (getMesh (_mesh w)) in
   Threads_parallel_reduce node_range UpdateDisplacedMeshThread) >>
  invoke (on_geometric_search_data GeometricSearchData.update) >>
  invoke updatePointLocator.

Definition hasVariable (var_name : string) : M t bool :=
  let* w := get in
  if DisplacedSystem.hasVariable (_displaced_nl w) var_name then ret true
  else if DisplacedSystem.hasVariable (_displaced_aux w) var_name then ret true
  else ret false.

Definition getStandardVariable (tid : THREAD_ID) (var_name : string) : M t VariableRef :=
  let* w := get in
  if DisplacedSystem.hasVariable (_displaced_nl w) var_name
  then ret (FieldVariable displaced_nl RealValue tid var_name)
  else
    (if negb (DisplacedSystem.hasVariable (_displaced_aux w) var_name)
     then mooseError ("No variable with name '" +:+ var_name +:+ "'")
     else ret tt) >>
    ret (FieldVariable displaced_aux RealValue tid var_name).

Definition getVectorVariable (tid : THREAD_ID) (var_name : string) : M t VariableRef :=
  let* w := get in
  if DisplacedSystem.hasVariable (_displaced_nl w) var_name
  then ret (FieldVariable displaced_nl RealVectorValue tid var_name)
  else
    (if negb (DisplacedSystem.hasVariable (_displaced_aux w) var_name)
     then mooseError ("No variable with name '" +:+ var_name +:+ "'")
     else ret tt) >>
    ret (FieldVariable displaced_aux RealVectorValue tid var_name).

Definition hasScalarVariable (var_name : string) : M t bool :=
  let* w := get in
  if DisplacedSystem.hasScalarVariable (_displaced_nl w) var_name then ret true
  else if DisplacedSystem.hasScalarVariable (_displaced_aux w) var_name then ret true
  else ret false.

Definition getScalarVariable (tid : THREAD_ID) (var_name : string) : M t VariableRef :=
  let* w := get in
  if DisplacedSystem.hasScalarVariable (_displaced_nl w) var_name
  then ret (ScalarVariable displaced_nl tid var_name)
  else if DisplacedSystem.hasScalarVariable (_displaced_aux w) var_name
  then ret (ScalarVariable displaced_aux tid var_name)
  else mooseError ("No variable with name '" +:+ var_name +:+ "'").

Definition getSystem (var_name : string) : M t SystemRef :=
  let* w := get in
  if DisplacedSystem.hasVariable (_displaced_nl w) var_name then ret (system displaced_nl)
  else if DisplacedSystem.hasVariable (_displaced_aux w) var_name
  then ret (system displaced_aux)
  else mooseError ("Unable to find a system containing the variable " +:+ var_name).

Definition addVariable (var_name : string) : M t unit :=
  modify (λ w, set_displaced_nl (DisplacedSystem.addVariable var_name (_displaced_nl w)) w).

Definition addAuxVariable (var_name : string) : M t unit :=
  modify (λ w, set_displaced_aux (DisplacedSystem.addVariable var_name (_displaced_aux w)) w).

Definition addScalarVariable (var_name : string) : M t unit :=
  modify (λ w, set_displaced_nl
                 (DisplacedSystem.addScalarVariable var_name (_displaced_nl w)) w).

Definition addAuxScalarVariable (var_name : string) : M t unit :=
  modify (λ w, set_displaced_aux
                 (DisplacedSystem.addScalarVariable var_name (_displaced_aux w)) w).

(** [prepare(elem, tid)] *)
Definition prepare (elem : Elem) (tid : THREAD_ID) : M t unit :=
  assembly tid (Assembly.reinit elem) >>
  on displaced_nl (SystemBase.prepare tid) >>
  on displaced_aux (SystemBase.prepare tid) >>
  (let* w := get in
   when (negb (FEProblemBase.hasJacobian (_mproblem w))
         || negb (FEProblemBase.constJacobian (_mproblem w)))
        (assembly tid Assembly.prepareJacobianBlock)) >>
  assembly tid Assembly.prepareResidual.

Definition prepareFace (elem : Elem) (tid : THREAD_ID) : M t unit :=
  on displaced_nl (SystemBase.prepareFace tid true) >>
  on displaced_aux (SystemBase.prepareFace tid false).

Definition prepareAssembly (tid : THREAD_ID) : M t unit :=
  assembly tid Assembly.prepare.

Definition prepareAssemblyNeighbor (tid : THREAD_ID) : M t unit :=
  assembly tid Assembly.prepareNeighbor.

Definition reinitElem (elem : Elem) (tid : THREAD_ID) : M t unit :=
  on displaced_nl (SystemBase.reinitElem elem tid) >>
  on displaced_aux (SystemBase.reinitElem elem tid).

(** [_dirac_kernel_info.getPoints()[elem].first]: subscripting a [std::map]
    creates the entry of a key that has none. *)
Definition getPoints_subscript (elem : Elem) : M t (list Point) :=
  let* w := get in
  match _dirac_kernel_info w !! elem with
  | Some entry => ret entry.1
  | None =>
      modify (set_dirac_kernel_info (<[elem := ([], [])]> (_dirac_kernel_info w))) >>
      ret []
  end.

Definition reinitDirac (elem : Elem) (tid : THREAD_ID) : M t bool :=
  let* points := getPoints_subscript elem in
  (* unsigned int n_points = points.size(); *)
  let n_points := N.of_nat (length points) mod 2 ^ 32 in
  when (negb (n_points =? 0))
       (assembly tid (Assembly.reinitAtPhysical elem points) >>
        on displaced_nl (SystemBase.prepare tid) >>
        on displaced_aux (SystemBase.prepare tid) >>
        reinitElem elem tid) >>
  assembly tid Assembly.prepare >>
  ret (0 <? n_points).

Definition reinitElemPhys (elem : Elem) (phys_points_in_elem : list Point)
    (tid : THREAD_ID) : M t unit :=
  assembly tid (Assembly.reinitAtPhysical elem phys_points_in_elem) >>
  on displaced_nl (SystemBase.prepare tid) >>
  on displaced_aux (SystemBase.prepare tid) >>
  assembly tid Assembly.prepare >>
  reinitElem elem tid.

Definition reinitElemFace (elem : Elem) (side : N) (bnd_id : BoundaryID)
    (tid : THREAD_ID) : M t unit :=
  assembly tid (Assembly.reinit_side elem side) >>
  on displaced_nl (SystemBase.reinitElemFace elem side bnd_id tid) >>
  on displaced_aux (SystemBase.reinitElemFace elem side bnd_id tid).

Definition reinitNode (node : NodePtr) (tid : THREAD_ID) : M t unit :=
  assembly tid (Assembly.reinit_node node) >>
  on displaced_nl (SystemBase.reinitNode node tid) >>
  on displaced_aux (SystemBase.reinitNode node tid).

Definition reinitNodeFace (node : NodePtr) (bnd_id : BoundaryID) (tid : THREAD_ID)
    : M t unit :=
  assembly tid (Assembly.reinit_node node) >>
  on displaced_nl (SystemBase.reinitNodeFace node bnd_id tid) >>
  on displaced_aux (SystemBase.reinitNodeFace node bnd_id tid).

Definition reinitNodes (nodes : list dof_id_type) (tid : THREAD_ID) : M t unit :=
  on displaced_nl (SystemBase.reinitNodes nodes tid) >>
  on displaced_aux (SystemBase.reinitNodes nodes tid).

Definition reinitNodesNeighbor (nodes : list dof_id_type) (tid : THREAD_ID) : M t unit :=
  on displaced_nl (SystemBase.reinitNodesNeighbor nodes tid) >>
  on displaced_aux (SystemBase.reinitNodesNeighbor nodes tid).

Definition reinitNeighbor (elem : Elem) (side : N) (tid : THREAD_ID) : M t unit :=
  match neighbor_ptr elem side with
  | None => undefined (* neighbor->which_neighbor_am_i(elem) on a null pointer *)
  | Some neighbor =>
      let neighbor_side := which_neighbor_am_i neighbor elem in
      assembly tid (Assembly.reinitElemAndNeighbor elem side neighbor neighbor_side) >>
      on displaced_nl (SystemBase.prepareNeighbor tid) >>
      on displaced_aux (SystemBase.prepareNeighbor tid) >>
      assembly tid Assembly.prepareNeighbor >>
      let bnd_id := 0%Z in
      on displaced_nl (SystemBase.reinitElemFace elem side bnd_id tid) >>
      on displaced_aux (SystemBase.reinitElemFace elem side bnd_id tid) >>
      on displaced_nl (SystemBase.reinitNeighborFace neighbor neighbor_side bnd_id tid) >>
      on displaced_aux (SystemBase.reinitNeighborFace neighbor neighbor_side bnd_id tid)
  end.

(** The overload [reinitNeighborPhys(neighbor, neighbor_side, physical_points, tid)]. *)
Definition reinitNeighborPhys_side (neighbor : Elem) (neighbor_side : N)
    (physical_points : list Point) (tid : THREAD_ID) : M t unit :=
  assembly tid (Assembly.reinitNeighborAtPhysical_side neighbor neighbor_side
                                                       physical_points) >>
  on displaced_nl (SystemBase.prepareNeighbor tid) >>
  on displaced_aux (SystemBase.prepareNeighbor tid) >>
  prepareAssemblyNeighbor tid >>
  on displaced_nl (SystemBase.reinitNeighborFace neighbor neighbor_side 0%Z tid) >>
  on displaced_aux (SystemBase.reinitNeighborFace neighbor neighbor_side 0%Z tid).

(** The overload [reinitNeighborPhys(neighbor, physical_points, tid)]. *)
Definition reinitNeighborPhys (neighbor : Elem) (physical_points : list Point)
    (tid : THREAD_ID) : M t unit :=
  assembly tid (Assembly.reinitNeighborAtPhysical neighbor physical_points) >>
  on displaced_nl (SystemBase.prepareNeighbor tid) >>
  on displaced_aux (SystemBase.prepareNeighbor tid) >>
  prepareAssemblyNeighbor tid >>
  on displaced_nl (SystemBase.reinitNeighbor neighbor tid) >>
  on displaced_aux (SystemBase.reinitNeighbor neighbor tid).

Definition reinitScalars (tid : THREAD_ID) : M t unit :=
  on displaced_nl (SystemBase.reinitScalars tid) >>
  on displaced_aux (SystemBase.reinitScalars tid).

Definition meshChanged : M t unit :=
  invoke (on_eq EquationSystems.reinit) >>
  invoke (on_mesh the_displaced_mesh MeshCall.meshChanged) >>
  invoke updatePointLocator >>
  invoke (on_geometric_search_data GeometricSearchData.reinit).

Definition converged : M t bool :=
  let* w := get in ret (FEProblemBase.converged (_mproblem w)).

Definition undisplaceMesh : M t unit :=
  let* w := get in
  let node_range := NodeRange (getMesh (_mesh w)) in
  Threads_parallel_reduce node_range ResetDisplacedMeshThread.

(** *** The reinitialization forwarding operations, as one family *)
Inductive Reinit :=
| ReinitElem (elem : Elem) (tid : THREAD_ID)
| ReinitElemPhys (elem : Elem) (phys_points_in_elem : list Point) (tid : THREAD_ID)
| ReinitElemFace (elem : Elem) (side : N) (bnd_id : BoundaryID) (tid : THREAD_ID)
| ReinitNode (node : NodePtr) (tid : THREAD_ID)
| ReinitNodeFace (node : NodePtr) (bnd_id : BoundaryID) (tid : THREAD_ID)
| ReinitNodes (nodes : list dof_id_type) (tid : THREAD_ID)
| ReinitNodesNeighbor (nodes : list dof_id_type) (tid : THREAD_ID)
| ReinitNeighbor (elem : Elem) (side : N) (tid : THREAD_ID)
| ReinitNeighborPhys_side (neighbor : Elem) (neighbor_side : N)
                          (physical_points : list Point) (tid : THREAD_ID)
| ReinitNeighborPhys (neighbor : Elem) (physical_points : list Point) (tid : THREAD_ID)
| ReinitScalars (tid : THREAD_ID).

Definition run_reinit (op : Reinit) : M t unit :=
  match op with
  | ReinitElem elem tid => reinitElem elem tid
  | ReinitElemPhys elem pts tid => reinitElemPhys elem pts tid
  | ReinitElemFace elem side bnd_id tid => reinitElemFace elem side bnd_id tid
  | ReinitNode node tid => reinitNode node tid
  | ReinitNodeFace node bnd_id tid => reinitNodeFace node bnd_id tid
  | ReinitNodes nodes tid => reinitNodes nodes tid
  | ReinitNodesNeighbor nodes tid => reinitNodesNeighbor nodes tid
  | ReinitNeighbor elem side tid => reinitNeighbor elem side tid
  | ReinitNeighborPhys_side neighbor neighbor_side pts tid =>
      reinitNeighborPhys_side neighbor neighbor_side pts tid
  | ReinitNeighborPhys neighbor pts tid => reinitNeighborPhys neighbor pts tid
  | ReinitScalars tid => reinitScalars tid
  end.

Definition thread_of (op : Reinit) : THREAD_ID :=
  match op with
  | ReinitElem _ tid | ReinitElemPhys _ _ tid | ReinitElemFace _ _ _ tid
  | ReinitNode _ tid | ReinitNodeFace _ _ tid | ReinitNodes _ tid
  | ReinitNodesNeighbor _ tid | ReinitNeighbor _ _ tid
  | ReinitNeighborPhys_side _ _ _ tid | ReinitNeighborPhys _ _ tid
  | ReinitScalars tid => tid
  end.

(** The element whose neighbour the operation dereferences has one. *)
Definition neighbor_exists (op : Reinit) : Prop :=
  match op with
  | ReinitNeighbor elem side _ => is_Some (neighbor_ptr elem side)
  | _ => True
  end.

End WithLibMesh.
Arguments t : clear implicits.
End DisplacedProblem.

(** ** Reading a call record *)



(** The collectives that change how the nodes of a mesh are replicated. *)
Definition is_replication (c : Call) : bool :=
  match c with
  | on_mesh _ MeshCall.allgather | on_mesh _ MeshCall.gather_to_zero => true
  | _ => false
  end.

(** Reinitialization of an [Assembly] at arbitrary physical points. *)
Definition is_physical_reinit (c : Call) : bool :=
  match c with
  | on_assembly _ (Assembly.reinitAtPhysical _ _)
  | on_assembly _ (Assembly.reinitNeighborAtPhysical_side _ _ _)
  | on_assembly _ (Assembly.reinitNeighborAtPhysical _ _) => true
  | _ => false
  end.

(** The points registered with the Dirac kernel info for an element; an
    element without an entry has none. *)
Definition registered_points {D} (w : DisplacedProblem.t D) (elem : Elem) : list Point :=
  match DisplacedProblem._dirac_kernel_info w !! elem with
  | Some entry => entry.1
  | None => []
  end.

(** The offset the displacement variables give a node in a pair of solution
    vectors. *)
Definition displacement_offset (mproblem : FEProblemBase.t) (displacements : list string)
    (nl aux : NumericVector) (id : N) : list float :=
  map (λ v, FEProblemBase.nodal_value mproblem nl aux v id) displacements.

(** What both node visitors do to a node store: the node [id] gets the
    coordinate [target id], if there is one. *)
Definition visit_step (target : N → option Point) (store : gmap N Node) (id : N)
    : gmap N Node :=
  match target id with
  | Some c => alter (set_coord c) id store
  | None => store
  end.

(** The node found under [id] after a visit of a range. *)
Definition visited (target : N → option Point) (range : list N) (id : N)
    (n : option Node) : option Node :=
  if decide (id ∈ range)
  then match target id with Some c => set_coord c <$> n | None => n end
  else n.

(** *** What [updateMesh] leaves behind *)
Section Updated.
Context {D : Type} `{!LibMesh D}.

(** The reference mesh after the first conditional collective of
    [updateMesh()], and after the second. *)
Definition after_allgather (displaced reference : MeshBase D) : MeshBase D :=
  if is_serial displaced && negb (is_serial reference)
  then allgather reference else reference.

Definition after_gather_to_zero (displaced reference : MeshBase D) : MeshBase D :=
  if is_serial_on_zero displaced && negb (is_serial_on_zero reference)
  then gather_to_zero reference else reference.

(** The collectives [updateMesh()] issues for a displaced and a reference
    mesh. *)
Definition repair_calls (displaced reference : MeshBase D) : list Call :=
  (if is_serial displaced && negb (is_serial reference)
   then [on_mesh the_reference_mesh MeshCall.allgather] else [])
  ++ (if is_serial_on_zero displaced
         && negb (is_serial_on_zero (after_allgather displaced reference))
      then [on_mesh the_reference_mesh MeshCall.gather_to_zero] else []).

(** The displaced nodes after the displacing visitor has run over the full
    node range, for a reference mesh and a pair of solution vectors. *)
Definition displaced_nodes (w : DisplacedProblem.t D) (ref_mesh : MooseMesh D)
    (nl aux : NumericVector) : gmap N Node :=
  foldl (DisplacedProblem.UpdateDisplacedMeshThread_onNode
           (DisplacedProblem._mproblem w) (DisplacedProblem._displacements w)
           ref_mesh nl aux)
        (nodes (getMesh (DisplacedProblem._mesh w)))
        (NodeRange (getMesh (DisplacedProblem._mesh w))).

(** The displaced nodes after the resetting visitor has run over the full
    node range. *)
Definition undisplaced_nodes (w : DisplacedProblem.t D) : gmap N Node :=
  foldl (DisplacedProblem.ResetDisplacedMeshThread_onNode (DisplacedProblem._ref_mesh w))
        (nodes (getMesh (DisplacedProblem._mesh w)))
        (NodeRange (getMesh (DisplacedProblem._mesh w))).

(** The state after an update of the mesh from the solutions [nl] and
    [aux] that left the reference mesh as [ref_mesh] and made the calls
    [new]. *)
Definition updated (w : DisplacedProblem.t D) (ref_mesh : MooseMesh D)
    (nl aux : NumericVector) (new : list Call) : DisplacedProblem.t D :=
  DisplacedProblem.mk
    (DisplacedProblem._mproblem w)
    (mkMooseMesh (mkMeshBase (displaced_nodes w ref_mesh nl aux)
                             (distribution (getMesh (DisplacedProblem._mesh w)))))
    ref_mesh
    (DisplacedProblem._displacements w)
    (DisplacedSystem.set_solution nl (DisplacedProblem._displaced_nl w))
    (DisplacedSystem.set_solution aux (DisplacedProblem._displaced_aux w))
    (Some nl) (Some aux)
    (DisplacedProblem._dirac_kernel_info w)
    (DisplacedProblem._assembly_size w)
    (DisplacedProblem.calls w ++ new).
End Updated.

(** The coordinates of the displaced nodes with the given ids. *)
Definition displaced_coordinates {D} (w : DisplacedProblem.t D) (ids : list N)
    : list (option Point) :=
  map (λ id, coord <$> nodes (getMesh (DisplacedProblem._mesh w)) !! id) ids.

(** ** A concrete libMesh, for examples

    The distribution state is the pair of flags of libMesh's DistributedMesh;
    the elements form a chain, element [e] having [e - 1] on side 0 (none for
    element 0) and [e + 1] on side 1. *)
Module DistributedMesh.
Record flags := mk { _is_serial : bool; _is_serial_on_proc_0 : bool }.

Definition chain_neighbor (elem : Elem) (side : N) : option Elem :=
  if side =? 0 then (if elem =? 0 then None else Some (elem - 1))
  else if side =? 1 then Some (elem + 1)
  else None.

#[global] Instance libmesh : LibMesh flags := {|
  is_serial m := _is_serial (distribution m);
  is_serial_on_zero m :=
    _is_serial (distribution m) || _is_serial_on_proc_0 (distribution m);
  allgather m := mkMeshBase (nodes m) (mk true true);
  gather_to_zero m := mkMeshBase (nodes m) (mk (_is_serial (distribution m)) true);
  neighbor_ptr := chain_neighbor;
  which_neighbor_am_i neighbor elem := if elem <? neighbor then 0 else 1
|}.

Definition replicated : flags := mk true true.
Definition distributed : flags := mk false false.
End DistributedMesh.

(** ** Concrete problems *)
Module Scenario.
Import DistributedMesh.

(** A 1-D mesh of three nodes at 0, 1 and 2; node 2 belongs to another
    process. *)
Definition reference_nodes : gmap N Node :=
  list_to_map [(0, mkNode 0 [0%float]); (1, mkNode 0 [1%float]); (2, mkNode 1 [2%float])].

(** The reference problem: one primary variable, disp_x, whose degree of
    freedom at node [i] is entry [i] of the primary solution, here
    0, 0.1, 0.2. *)
Definition mproblem (has_variables : bool) (hasJacobian constJacobian : bool)
    : FEProblemBase.t :=
  FEProblemBase.mk true (λ _, COORD_XYZ) false
    (λ v, has_variables && bool_decide (v = "disp_x")) hasJacobian constJacobian
    [0; 0.1; 0.2]%float []
    (λ nl aux v id,
       if bool_decide (v = "disp_x") then default 0%float (nl !! N.to_nat id) else 0%float).

Definition empty_system (name : string) : DisplacedSystem.t :=
  DisplacedSystem.mk name ∅ ∅ [].

(** A displaced problem right after construction: the displaced mesh is a
    copy of the reference mesh, no variable has been added, one thread. *)
Definition constructed (displaced reference : flags) (has_variables : bool)
    : DisplacedProblem.t flags :=
  DisplacedProblem.mk (mproblem has_variables false false)
    (mkMooseMesh (mkMeshBase reference_nodes displaced))
    (mkMooseMesh (mkMeshBase reference_nodes reference))
    ["disp_x"] (empty_system "nl0_displaced") (empty_system "aux0_displaced")
    None None ∅ 1 [].

(** The problem of the scenario: both meshes replicated, disp_x added to the
    displaced primary system, one Dirac point registered in element 0. *)
Definition problem : DisplacedProblem.t flags :=
  DisplacedProblem.set_dirac_kernel_info {[ 0 := ([[0.5%float]], [1]) ]}
    (DisplacedProblem.set_displaced_nl
       (DisplacedSystem.addVariable "disp_x" (empty_system "nl0_displaced"))
       (constructed replicated replicated true)).
End Scenario.

(** The process was stopped by [mooseError]. *)
Definition is_Fatal {S A} (o : Outcome S A) : Prop := ∃ msg, o = Fatal msg.

(** Unfold a member function down to the state it returns. *)
Ltac run :=
  cbv [DisplacedProblem.on DisplacedProblem.invoke DisplacedProblem.assembly
       bind ret get modify when mooseError undefined];
  cbn [DisplacedProblem._mproblem DisplacedProblem._mesh DisplacedProblem._ref_mesh
       DisplacedProblem._displacements DisplacedProblem._displaced_nl
       DisplacedProblem._displaced_aux DisplacedProblem._nl_solution
       DisplacedProblem._aux_solution DisplacedProblem._dirac_kernel_info
       DisplacedProblem._assembly_size DisplacedProblem.calls
       DisplacedProblem.set_calls DisplacedProblem.set_mesh DisplacedProblem.set_ref_mesh
       DisplacedProblem.set_displaced_nl DisplacedProblem.set_displaced_aux
       DisplacedProblem.set_nl_solution DisplacedProblem.set_aux_solution
       DisplacedProblem.set_dirac_kernel_info DisplacedProblem.set_nodes].

(** [run], with the bound checks on [_assembly] discharged by [Htid]. *)
Ltac run_on Htid := run; repeat (rewrite (bool_decide_eq_true_2 _ Htid); run).

(** Settle [is_Fatal o ↔ P ∧ Q] once [o] is a value and the membership facts
    are among the hypotheses. *)
Ltac fatal_iff :=
  split;
  [ intros [msg Hmsg]; first [ discriminate Hmsg | split; assumption ]
  | intros [? ?]; first [ contradiction | eexists; reflexivity ] ].

(** Settle a goal about membership in an explicit list of calls. *)
Ltac decide_calls :=
  rewrite ?list_elem_of_In; simpl; intuition (try discriminate; try congruence).

(** Settle [Forall (λ c, P c ∨ ∃ s, c = f s) l] for an explicit list [l]. *)
Ltac all_calls :=
  repeat first
    [ apply List.Forall_nil
    | apply List.Forall_cons;
      [ first [ left; reflexivity | right; eexists; reflexivity ] | ] ].

(** Settle [Forall (λ c, call_thread c = Some tid) l] for an explicit list. *)
Ltac same_thread :=
  repeat first [ apply List.Forall_nil | apply List.Forall_cons; [reflexivity |] ].

(** Closes a goal [calls w' = calls w ++ ?new] after the calls were appended
    one at a time. *)
Ltac collect_calls := cbn; rewrite <- ?app_assoc; reflexivity.

(** ** Reading calls and outcomes further *)

(** The thread id a call carries, if it carries one. *)
Definition call_thread (c : Call) : option THREAD_ID :=
  match c with
  | on_assembly tid _ => Some tid
  | on_system _ c' =>
      match c' with
      | SystemBase.update => None
      | SystemBase.prepare tid | SystemBase.prepareFace tid _
      | SystemBase.prepareNeighbor tid | SystemBase.reinitElem _ tid
      | SystemBase.reinitElemFace _ _ _ tid | SystemBase.reinitNeighborFace _ _ _ tid
      | SystemBase.reinitNeighbor _ tid | SystemBase.reinitNode _ tid
      | SystemBase.reinitNodeFace _ _ tid | SystemBase.reinitNodes _ tid
      | SystemBase.reinitNodesNeighbor _ tid | SystemBase.reinitScalars tid => Some tid
      end
  | _ => None
  end.

(** The forwarding operations that index [_assembly]. *)
Definition uses_assembly (op : DisplacedProblem.Reinit) : bool :=
  match op with
  | DisplacedProblem.ReinitElem _ _ | DisplacedProblem.ReinitNodes _ _
  | DisplacedProblem.ReinitNodesNeighbor _ _ | DisplacedProblem.ReinitScalars _ => false
  | _ => true
  end.

(** The Dirac point map after [getPoints()[elem]]: an element that had no
    entry has an empty one. *)
Definition after_subscript (info : gmap N (list Point * list N)) (elem : Elem)
    : gmap N (list Point * list N) :=
  match info !! elem with
  | Some _ => info
  | None => <[elem := ([], [])]> info
  end.

(** The number of registered points of an element as [reinitDirac] reads it
    into its [unsigned int]. *)
Definition n_points {D} (w : DisplacedProblem.t D) (elem : Elem) : N :=
  N.of_nat (length (registered_points w elem)) mod 2 ^ 32.

(** * Properties *)

(** ** Indexing [_assembly] *)

Section Facts.
Context {D : Type} `{!LibMesh D}.
Import DisplacedProblem.
Implicit Types w : DisplacedProblem.t D.

(** A thread id past the end of [_assembly] is undefined behaviour. *)
Lemma assembly_out_of_range w tid c :
  (_assembly_size w ≤ tid)%nat → assembly tid c w = Undefined.
Proof.
  intros Htid. unfold assembly, bind, get.
  rewrite bool_decide_eq_false_2; [done | lia].
Qed.
End Facts.

Section Queries.
Context {D : Type} `{!LibMesh D}.
Import DisplacedProblem.
Implicit Types w : DisplacedProblem.t D.

(** C2 (as amended): [isTransient], [getCoordSystem] and [converged] return
    what the reference problem's query of the same name returns, in an
    unchanged state; [hasVariable] does not consult the reference problem
    but answers whether the displaced primary or the displaced auxiliary
    system holds the variable. *)
Theorem metadata_queries w (var_name : string) (sid : SubdomainID) :
  isTransient w = Returned (FEProblemBase.isTransient (_mproblem w)) w
  ∧ getCoordSystem sid w = Returned (FEProblemBase.getCoordSystem (_mproblem w) sid) w
  ∧ converged w = Returned (FEProblemBase.converged (_mproblem w)) w
  ∧ hasVariable var_name w =
      Returned (bool_decide (var_name ∈ DisplacedSystem.variables (_displaced_nl w)
                             ∨ var_name ∈ DisplacedSystem.variables (_displaced_aux w))) w.
Proof.
  repeat split.
  unfold hasVariable, DisplacedSystem.hasVariable. run.
  destruct (decide (var_name ∈ DisplacedSystem.variables (_displaced_nl w))) as [Hnl|Hnl],
           (decide (var_name ∈ DisplacedSystem.variables (_displaced_aux w))) as [Haux|Haux];
    rewrite ?(bool_decide_eq_true_2 _ Hnl), ?(bool_decide_eq_false_2 _ Hnl),
            ?(bool_decide_eq_true_2 _ Haux), ?(bool_decide_eq_false_2 _ Haux);
    f_equal; symmetry;
    first [ apply bool_decide_eq_true_2; tauto | apply bool_decide_eq_false_2; tauto ].
Qed.

(** C3: lookup by storage location resolves against the displaced primary
    system first, then against the displaced auxiliary system, and stops
    with a fatal error exactly when neither of the two holds the variable
    (a field variable for [getStandardVariable] and [getSystem], a scalar
    variable for [getScalarVariable]). *)
Theorem lookup_by_storage_location w (tid : THREAD_ID) (var_name : string) :
  (getStandardVariable tid var_name w =
     if DisplacedSystem.hasVariable (_displaced_nl w) var_name
     then Returned (FieldVariable displaced_nl RealValue tid var_name) w
     else if DisplacedSystem.hasVariable (_displaced_aux w) var_name
     then Returned (FieldVariable displaced_aux RealValue tid var_name) w
     else Fatal ("No variable with name '" +:+ var_name +:+ "'"))
  ∧ (is_Fatal (getStandardVariable tid var_name w) ↔
       ((var_name ∉ DisplacedSystem.variables (_displaced_nl w))
       ∧ (var_name ∉ DisplacedSystem.variables (_displaced_aux w))))
  ∧ (getScalarVariable tid var_name w =
       if DisplacedSystem.hasScalarVariable (_displaced_nl w) var_name
       then Returned (ScalarVariable displaced_nl tid var_name) w
       else if DisplacedSystem.hasScalarVariable (_displaced_aux w) var_name
       then Returned (ScalarVariable displaced_aux tid var_name) w
       else Fatal ("No variable with name '" +:+ var_name +:+ "'"))
  ∧ (is_Fatal (getScalarVariable tid var_name w) ↔
       ((var_name ∉ DisplacedSystem.scalar_variables (_displaced_nl w))
       ∧ (var_name ∉ DisplacedSystem.scalar_variables (_displaced_aux w))))
  ∧ (getSystem var_name w =
       if DisplacedSystem.hasVariable (_displaced_nl w) var_name
       then Returned (system displaced_nl) w
       else if DisplacedSystem.hasVariable (_displaced_aux w) var_name
       then Returned (system displaced_aux) w
       else Fatal ("Unable to find a system containing the variable " +:+ var_name))
  ∧ (is_Fatal (getSystem var_name w) ↔
       ((var_name ∉ DisplacedSystem.variables (_displaced_nl w))
       ∧ (var_name ∉ DisplacedSystem.variables (_displaced_aux w)))).
Proof.
  unfold getStandardVariable, getScalarVariable, getSystem, is_Fatal,
    DisplacedSystem.hasVariable, DisplacedSystem.hasScalarVariable.
  run.
  destruct (decide (var_name ∈ DisplacedSystem.variables (_displaced_nl w))) as [Hnl|Hnl],
           (decide (var_name ∈ DisplacedSystem.variables (_displaced_aux w))) as [Haux|Haux],
           (decide (var_name ∈ DisplacedSystem.scalar_variables (_displaced_nl w)))
             as [Hsnl|Hsnl],
           (decide (var_name ∈ DisplacedSystem.scalar_variables (_displaced_aux w)))
             as [Hsaux|Hsaux];
    rewrite ?(bool_decide_eq_true_2 _ Hnl), ?(bool_decide_eq_false_2 _ Hnl),
            ?(bool_decide_eq_true_2 _ Haux), ?(bool_decide_eq_false_2 _ Haux),
            ?(bool_decide_eq_true_2 _ Hsnl), ?(bool_decide_eq_false_2 _ Hsnl),
            ?(bool_decide_eq_true_2 _ Hsaux), ?(bool_decide_eq_false_2 _ Hsaux);
    simpl;
    (split; [reflexivity |]); (split; [fatal_iff |]);
    (split; [reflexivity |]); (split; [fatal_iff |]);
    (split; [reflexivity | fatal_iff]).
Qed.
End Queries.

(** C2 (counterexample): [hasVariable] is not the reference problem's
    answer.  A displaced problem built for a reference problem that knows
    disp_x answers false before the variable has been added to its own
    systems, and a displaced problem that was given disp_x answers true
    although its reference problem does not know the variable. *)
Lemma hasVariable_not_delegated :
  (DisplacedProblem.hasVariable "disp_x"
     (Scenario.constructed DistributedMesh.replicated DistributedMesh.replicated true)
   = Returned false
       (Scenario.constructed DistributedMesh.replicated DistributedMesh.replicated true)
   ∧ FEProblemBase.hasVariable
       (DisplacedProblem._mproblem
          (Scenario.constructed DistributedMesh.replicated DistributedMesh.replicated true))
       "disp_x" = true)
  ∧ (∃ w, DisplacedProblem.addVariable "disp_x"
            (Scenario.constructed DistributedMesh.replicated DistributedMesh.replicated false)
          = Returned tt w
        ∧ DisplacedProblem.hasVariable "disp_x" w = Returned true w
        ∧ FEProblemBase.hasVariable (DisplacedProblem._mproblem w) "disp_x" = false).
Proof.
  split; [split; vm_compute; reflexivity |].
  eexists. split; [reflexivity |]. split; vm_compute; reflexivity.
Qed.

(** ** Preparation and reinitialization on a thread's [Assembly] *)

Lemma n_points_positive (points : list Point) :
  points ≠ [] → N.of_nat (length points) < 2 ^ 32 →
  (N.of_nat (length points) mod 2 ^ 32 =? 0) = false
  ∧ (0 <? N.of_nat (length points) mod 2 ^ 32) = true.
Proof.
  intros Hne Hlt. rewrite N.mod_small by exact Hlt.
  destruct points as [|p points]; [done |].
  split; [apply N.eqb_neq | apply N.ltb_lt]; simpl length; lia.
Qed.

Section OnAssembly.
Context {D : Type} `{!LibMesh D}.
Import DisplacedProblem.
Implicit Types w : DisplacedProblem.t D.

(** C8: [prepare] leaves out the [prepareJacobianBlock] of the thread's
    [Assembly] exactly when the reference problem has a Jacobian and
    declares it constant; [prepareResidual] is called in every case, last. *)
Theorem prepare_skips_constant_jacobian w (elem : Elem) (tid : THREAD_ID) :
  (tid < _assembly_size w)%nat →
  ∃ w' new,
    prepare elem tid w = Returned tt w'
    ∧ calls w' = calls w ++ new
    ∧ new = [on_assembly tid (Assembly.reinit elem);
             on_system displaced_nl (SystemBase.prepare tid);
             on_system displaced_aux (SystemBase.prepare tid)]
            ++ (if FEProblemBase.hasJacobian (_mproblem w)
                   && FEProblemBase.constJacobian (_mproblem w)
                then [] else [on_assembly tid Assembly.prepareJacobianBlock])
            ++ [on_assembly tid Assembly.prepareResidual]
    ∧ ((on_assembly tid Assembly.prepareJacobianBlock ∉ new) ↔
         (FEProblemBase.hasJacobian (_mproblem w) = true
          ∧ FEProblemBase.constJacobian (_mproblem w) = true))
    ∧ on_assembly tid Assembly.prepareResidual ∈ new.
Proof.
  intros Htid. unfold prepare. run_on Htid.
  destruct (FEProblemBase.hasJacobian (_mproblem w)),
           (FEProblemBase.constJacobian (_mproblem w)); simpl;
    run_on Htid;
    (eexists _, _; split; [reflexivity |]; split; [collect_calls |];
     split; [reflexivity |]; split; [| repeat constructor]).
  - split; [done | intros _]. rewrite list_elem_of_In. simpl. intuition discriminate.
  - split; [intros Hnot | intros [_ ?]; done]. exfalso. apply Hnot. repeat constructor.
  - split; [intros Hnot | intros [? _]; done]. exfalso. apply Hnot. repeat constructor.
  - split; [intros Hnot | intros [? _]; done]. exfalso. apply Hnot. repeat constructor.
Qed.

(** C9: with no Dirac point registered for the element, [reinitDirac] still
    calls [prepare] on the thread's [Assembly], and only that, before it
    returns false. *)
Theorem reinitDirac_without_points_prepares w (elem : Elem) (tid : THREAD_ID) :
  (tid < _assembly_size w)%nat →
  registered_points w elem = [] →
  ∃ w', reinitDirac elem tid w = Returned false w'
        ∧ calls w' = calls w ++ [on_assembly tid Assembly.prepare].
Proof.
  intros Htid Hnone. unfold registered_points in Hnone.
  unfold reinitDirac, getPoints_subscript. run.
  destruct (_dirac_kernel_info w !! elem) as [entry|]; run.
  - rewrite Hnone. simpl. run_on Htid.
    eexists. split; reflexivity.
  - simpl. run_on Htid.
    eexists. split; reflexivity.
Qed.

(** C6: [reinitDirac] returns true exactly when the element has a
    registered Dirac point; when it returns false it reinitialized no
    [Assembly] at physical points, and when it returns true the one such
    reinitialization is that of the thread's [Assembly] at the registered
    points of the element.  The number of registered points is taken to fit
    the [unsigned int] the function counts them in. *)
Theorem reinitDirac_gating w (elem : Elem) (tid : THREAD_ID) :
  (tid < _assembly_size w)%nat →
  N.of_nat (length (registered_points w elem)) < 2 ^ 32 →
  ∃ b w' new,
    reinitDirac elem tid w = Returned b w'
    ∧ calls w' = calls w ++ new
    ∧ (b = true ↔ registered_points w elem ≠ [])
    ∧ (b = false → List.filter is_physical_reinit new = [])
    ∧ (b = true →
       List.filter is_physical_reinit new =
         [on_assembly tid (Assembly.reinitAtPhysical elem (registered_points w elem))]).
Proof.
  intros Htid Hfits.
  destruct (decide (registered_points w elem = [])) as [Hnone|Hsome].
  - rewrite Hnone. unfold registered_points in Hnone.
    unfold reinitDirac, getPoints_subscript. run.
    destruct (_dirac_kernel_info w !! elem) as [entry|]; run;
      rewrite ?Hnone; simpl; run_on Htid;
      (eexists _, _, _; split; [reflexivity |]; split; [reflexivity |];
       split; [split; [done | intros Hne; by destruct Hne] |];
       split; [reflexivity | done]).
  - destruct (n_points_positive _ Hsome Hfits) as [Hzero Hpos].
    unfold registered_points in *.
    unfold reinitDirac, getPoints_subscript, reinitElem. run.
    destruct (_dirac_kernel_info w !! elem) as [entry|]; [| done]. run.
    rewrite Hzero, Hpos. simpl. run_on Htid.
    eexists _, _, _. split; [reflexivity |]. split; [collect_calls |].
    split; [done |]. split; [done | reflexivity].
Qed.

End OnAssembly.

(** ** Displacing the mesh and putting it back *)

Lemma NodeRange_complete {D} (m : MeshBase D) (id : N) (n : Node) :
  nodes m !! id = Some n → id ∈ NodeRange m.
Proof.
  intros Hn. unfold NodeRange. apply list_elem_of_fmap.
  exists (id, n). split; [done |]. by apply elem_of_map_to_list.
Qed.

Lemma NodeRange_sound {D} (m : MeshBase D) (id : N) :
  id ∈ NodeRange m → is_Some (nodes m !! id).
Proof.
  unfold NodeRange. intros ([id' n] & -> & Hn)%list_elem_of_fmap.
  exists n. by apply elem_of_map_to_list.
Qed.

Lemma foldl_pointwise {A B} (f g : A → B → A) (l : list B) (a : A) :
  (∀ x y, f x y = g x y) → foldl f a l = foldl g a l.
Proof.
  intros Hfg. revert a. induction l as [|b l IH]; intros a; simpl; [done |].
  by rewrite Hfg, IH.
Qed.

Lemma visit_step_lookup target (store : gmap N Node) (id j : N) :
  visit_step target store id !! j = visited target [id] j (store !! j).
Proof.
  unfold visit_step, visited.
  destruct (decide (j ∈ [id])) as [Hin|Hout].
  - apply list_elem_of_singleton in Hin as ->.
    destruct (target id); [apply lookup_alter_eq | done].
  - assert (id ≠ j) by (intros ->; apply Hout; constructor).
    destruct (target id); [by apply lookup_alter_ne | done].
Qed.

Lemma visited_twice target (range : list N) (id j : N) (n : option Node) :
  visited target range j (visited target [id] j n) = visited target (id :: range) j n.
Proof.
  unfold visited.
  destruct (decide (j ∈ range)) as [Hr|Hr], (decide (j ∈ [id])) as [Hi|Hi],
           (decide (j ∈ id :: range)) as [Hc|Hc];
    try (exfalso; apply Hc; apply list_elem_of_singleton in Hi as ->; by constructor);
    try (exfalso; apply Hc; by constructor);
    try (exfalso; apply elem_of_cons in Hc as [->|?]; [apply Hi; constructor | done]);
    destruct (target j); try done.
  by destruct n.
Qed.

(** The visit of a range changes the nodes of the range and only them, each
    by itself. *)
Lemma visit_lookup target (range : list N) (store : gmap N Node) (j : N) :
  foldl (visit_step target) store range !! j = visited target range j (store !! j).
Proof.
  revert store. induction range as [|id range IH]; intros store; simpl.
  - unfold visited. by rewrite decide_False by apply not_elem_of_nil.
  - by rewrite IH, visit_step_lookup, visited_twice.
Qed.

Section OnMesh.
Context {D : Type} `{!LibMesh D}.
Import DisplacedProblem.
Implicit Types w : DisplacedProblem.t D.

Lemma update_visit_lookup mproblem displacements (ref_mesh : MooseMesh D)
    (nl aux : NumericVector) (range : list N) (store : gmap N Node) (j : N) :
  foldl (UpdateDisplacedMeshThread_onNode mproblem displacements ref_mesh nl aux)
        store range !! j
  = visited (λ id, (λ rn, add_offset (coord rn)
                             (displacement_offset mproblem displacements nl aux id))
                   <$> nodes (getMesh ref_mesh) !! id)
            range j (store !! j).
Proof.
  rewrite <- visit_lookup. f_equal. apply foldl_pointwise. intros x id.
  unfold UpdateDisplacedMeshThread_onNode, visit_step, displacement_offset.
  by destruct (nodes (getMesh ref_mesh) !! id).
Qed.

Lemma reset_visit_lookup (ref_mesh : MooseMesh D) (range : list N)
    (store : gmap N Node) (j : N) :
  foldl (ResetDisplacedMeshThread_onNode ref_mesh) store range !! j
  = visited (λ id, coord <$> nodes (getMesh ref_mesh) !! id) range j (store !! j).
Proof.
  rewrite <- visit_lookup. f_equal. apply foldl_pointwise. intros x id.
  unfold ResetDisplacedMeshThread_onNode, visit_step.
  by destruct (nodes (getMesh ref_mesh) !! id).
Qed.

(** Every node of the displaced mesh that has a reference node is moved to
    reference coordinate + offset. *)
Lemma displaced_nodes_lookup w (ref_mesh : MooseMesh D) (nl aux : NumericVector)
    (id : N) (dn rn : Node) :
  nodes (getMesh (_mesh w)) !! id = Some dn →
  nodes (getMesh ref_mesh) !! id = Some rn →
  displaced_nodes w ref_mesh nl aux !! id
  = Some (set_coord (add_offset (coord rn)
                       (displacement_offset (_mproblem w) (_displacements w) nl aux id))
                    dn).
Proof.
  intros Hdn Hrn. unfold displaced_nodes. rewrite update_visit_lookup. unfold visited.
  rewrite decide_True by (by eapply NodeRange_complete).
  by rewrite Hrn, Hdn.
Qed.

(** Every node of the displaced mesh that has a reference node is put back
    on the coordinate of that node. *)
Lemma undisplaced_nodes_lookup w (id : N) (dn rn : Node) :
  nodes (getMesh (_mesh w)) !! id = Some dn →
  nodes (getMesh (_ref_mesh w)) !! id = Some rn →
  undisplaced_nodes w !! id = Some (set_coord (coord rn) dn).
Proof.
  intros Hdn Hrn. unfold undisplaced_nodes. rewrite reset_visit_lookup. unfold visited.
  rewrite decide_True by (by eapply NodeRange_complete).
  by rewrite Hrn, Hdn.
Qed.

(** The resetting visitor keeps the ids and the owners of the nodes. *)
Lemma undisplaced_nodes_owner w (id : N) :
  processor_id <$> undisplaced_nodes w !! id
  = processor_id <$> nodes (getMesh (_mesh w)) !! id.
Proof.
  unfold undisplaced_nodes. rewrite reset_visit_lookup. unfold visited.
  destruct (decide _); [| done].
  destruct (nodes (getMesh (_ref_mesh w)) !! id); simpl; [| done].
  by destruct (nodes (getMesh (_mesh w)) !! id).
Qed.

Lemma undisplaceMesh_run w :
  undisplaceMesh w
  = Returned tt
      (set_nodes (undisplaced_nodes w)
         (set_calls (calls w ++ [parallel_reduce (NodeRange (getMesh (_mesh w)))
                                                 ResetDisplacedMeshThread]) w)).
Proof. reflexivity. Qed.

Lemma updateMesh2_run w (soln aux_soln : NumericVector) :
  updateMesh2 soln aux_soln w
  = Returned tt
      (updated w (_ref_mesh w) soln aux_soln
         [on_system displaced_nl SystemBase.update;
          on_system displaced_aux SystemBase.update;
          parallel_reduce (NodeRange (getMesh (_mesh w))) UpdateDisplacedMeshThread;
          on_geometric_search_data GeometricSearchData.update;
          updatePointLocator]).
Proof.
  unfold updateMesh2, syncSolutions2, Threads_parallel_reduce. run.
  unfold updated, displaced_nodes. cbn. by rewrite <- !app_assoc.
Qed.

Lemma updateMesh_run w :
  updateMesh w
  = Returned tt
      (updated w
         (mkMooseMesh
            (after_gather_to_zero (getMesh (_mesh w))
               (after_allgather (getMesh (_mesh w)) (getMesh (_ref_mesh w)))))
         (FEProblemBase.nl_currentSolution (_mproblem w))
         (FEProblemBase.aux_currentSolution (_mproblem w))
         ([on_system displaced_nl SystemBase.update;
           on_system displaced_aux SystemBase.update]
          ++ repair_calls (getMesh (_mesh w)) (getMesh (_ref_mesh w))
          ++ [parallel_reduce (NodeRange (getMesh (_mesh w))) UpdateDisplacedMeshThread;
              on_geometric_search_data GeometricSearchData.update;
              updatePointLocator])).
Proof.
  unfold updateMesh, syncSolutions, Threads_parallel_reduce, refMesh_allgather,
    refMesh_gather_to_zero, refMesh, after_gather_to_zero, repair_calls, after_allgather.
  destruct w as [mproblem [displaced] [reference] displacements nl aux nl_soln aux_soln
                   dirac n_threads record].
  run. cbn [getMesh].
  destruct (is_serial displaced && negb (is_serial reference)); run; cbn [getMesh].
  - destruct (is_serial_on_zero displaced && negb (is_serial_on_zero (allgather reference)));
      run; unfold updated, displaced_nodes; cbn; by rewrite <- ?app_assoc.
  - destruct (is_serial_on_zero displaced && negb (is_serial_on_zero reference));
      run; unfold updated, displaced_nodes; cbn; by rewrite <- ?app_assoc.
Qed.

(** C1 (as amended): [updateMesh()] gathers the reference mesh on every
    process exactly when the displaced mesh is serial while the reference
    mesh is not, and then gathers the reference mesh on process zero exactly
    when the displaced mesh is serial on process zero while the reference
    mesh, as the first step left it, is not.  It issues no other replication
    collective, and none on the displaced mesh, whose distribution stays as
    it was. *)
Theorem updateMesh_repairs_reference_mesh w :
  ∃ w' new,
    updateMesh w = Returned tt w'
    ∧ calls w' = calls w ++ new
    ∧ (on_mesh the_reference_mesh MeshCall.allgather ∈ new ↔
         (is_serial (getMesh (_mesh w)) = true
          ∧ is_serial (getMesh (_ref_mesh w)) = false))
    ∧ (on_mesh the_reference_mesh MeshCall.gather_to_zero ∈ new ↔
         (is_serial_on_zero (getMesh (_mesh w)) = true
          ∧ is_serial_on_zero
              (after_allgather (getMesh (_mesh w)) (getMesh (_ref_mesh w))) = false))
    ∧ List.filter is_replication new
      = repair_calls (getMesh (_mesh w)) (getMesh (_ref_mesh w))
    ∧ (∀ c, on_mesh the_displaced_mesh c ∉ new)
    ∧ getMesh (_ref_mesh w')
      = after_gather_to_zero (getMesh (_mesh w))
          (after_allgather (getMesh (_mesh w)) (getMesh (_ref_mesh w)))
    ∧ distribution (getMesh (_mesh w')) = distribution (getMesh (_mesh w)).
Proof.
  rewrite updateMesh_run. eexists _, _.
  split; [reflexivity |]. split; [reflexivity |].
  unfold repair_calls, after_allgather.
  destruct (is_serial (getMesh (_mesh w))), (is_serial (getMesh (_ref_mesh w))); simpl;
    repeat match goal with
           | |- context [is_serial_on_zero ?m] => destruct (is_serial_on_zero m)
           end;
    simpl;
    (split; [decide_calls |]); (split; [decide_calls |]); (split; [reflexivity |]);
    (split; [intros c; decide_calls |]); split; reflexivity.
Qed.

(** C4: both overloads of [updateMesh] run the displacing visitor over the
    full node range of the displaced mesh, which holds every node stored in
    that mesh whoever owns it, and then, in this order and as their last
    calls, update the geometric search data and rebuild the point locator
    of the Dirac kernels.  No visitor, search update or locator rebuild
    comes before.  The run of the visitor shows in the mesh: the node store
    afterwards is the one the visitor leaves after the whole range, and every
    node of the displaced mesh that has a reference node, whoever owns it,
    lies on reference coordinate + offset. *)
Theorem updateMesh_displaces_every_node w (soln aux_soln : NumericVector) :
  (∃ w' before,
     updateMesh w = Returned tt w'
     ∧ calls w' = calls w ++ before
                  ++ [parallel_reduce (NodeRange (getMesh (_mesh w)))
                                      UpdateDisplacedMeshThread;
                      on_geometric_search_data GeometricSearchData.update;
                      updatePointLocator]
     ∧ Forall (λ c, is_replication c = true ∨ ∃ s, c = on_system s SystemBase.update)
              before
     ∧ nodes (getMesh (_mesh w'))
       = displaced_nodes w (_ref_mesh w')
           (FEProblemBase.nl_currentSolution (_mproblem w))
           (FEProblemBase.aux_currentSolution (_mproblem w))
     ∧ (∀ id dn rn,
          nodes (getMesh (_mesh w)) !! id = Some dn →
          nodes (getMesh (_ref_mesh w')) !! id = Some rn →
          nodes (getMesh (_mesh w')) !! id
          = Some (set_coord
                    (add_offset (coord rn)
                       (displacement_offset (_mproblem w) (_displacements w)
                          (FEProblemBase.nl_currentSolution (_mproblem w))
                          (FEProblemBase.aux_currentSolution (_mproblem w)) id))
                    dn)))
  ∧ (∃ w' before,
       updateMesh2 soln aux_soln w = Returned tt w'
       ∧ calls w' = calls w ++ before
                    ++ [parallel_reduce (NodeRange (getMesh (_mesh w)))
                                        UpdateDisplacedMeshThread;
                        on_geometric_search_data GeometricSearchData.update;
                        updatePointLocator]
       ∧ Forall (λ c, is_replication c = true ∨ ∃ s, c = on_system s SystemBase.update)
                before
       ∧ nodes (getMesh (_mesh w')) = displaced_nodes w (_ref_mesh w') soln aux_soln
       ∧ (∀ id dn rn,
            nodes (getMesh (_mesh w)) !! id = Some dn →
            nodes (getMesh (_ref_mesh w')) !! id = Some rn →
            nodes (getMesh (_mesh w')) !! id
            = Some (set_coord
                      (add_offset (coord rn)
                         (displacement_offset (_mproblem w) (_displacements w)
                            soln aux_soln id))
                      dn)))
  ∧ (∀ id n, nodes (getMesh (_mesh w)) !! id = Some n →
             id ∈ NodeRange (getMesh (_mesh w))).
Proof.
  split; [| split].
  - rewrite updateMesh_run.
    eexists _, ([on_system displaced_nl SystemBase.update;
                 on_system displaced_aux SystemBase.update]
                ++ repair_calls (getMesh (_mesh w)) (getMesh (_ref_mesh w))).
    split; [reflexivity |].
    split; [unfold updated; cbn [calls]; by rewrite <- (app_assoc [_; _]) |].
    split; [| split].
    + unfold repair_calls.
      repeat match goal with |- context [if ?b then _ else _] => destruct b end;
        simpl; all_calls.
    + reflexivity.
    + intros id dn rn Hdn Hrn. cbn in Hrn.
      exact (displaced_nodes_lookup w (mkMooseMesh _)
               (FEProblemBase.nl_currentSolution (_mproblem w))
               (FEProblemBase.aux_currentSolution (_mproblem w)) id dn rn Hdn Hrn).
  - rewrite updateMesh2_run. eexists _, [_; _]. split; [reflexivity |].
    split; [reflexivity |]. split; [all_calls |]. split; [reflexivity |].
    intros id dn rn Hdn Hrn.
    exact (displaced_nodes_lookup w (_ref_mesh w) soln aux_soln id dn rn Hdn Hrn).
  - intros id n. apply NodeRange_complete.
Qed.

(** C10: [undisplaceMesh] changes the coordinates of nodes of the displaced
    mesh and nothing else.  Its one call is the reduction of the resetting
    visitor over the full node range: there is no update of the geometric
    search data, no rebuild of the point locator, no call on the equation
    systems and none on the displaced systems, whose solution vectors stay
    as they were, as does every other member of the displaced problem; the
    displaced mesh keeps its distribution, its node ids and their owners. *)
Theorem undisplaceMesh_moves_nodes_only w :
  ∃ w',
    undisplaceMesh w = Returned tt w'
    ∧ calls w' = calls w ++ [parallel_reduce (NodeRange (getMesh (_mesh w)))
                                             ResetDisplacedMeshThread]
    ∧ (∀ id n, nodes (getMesh (_mesh w)) !! id = Some n →
               id ∈ NodeRange (getMesh (_mesh w)))
    ∧ _displaced_nl w' = _displaced_nl w
    ∧ _displaced_aux w' = _displaced_aux w
    ∧ _nl_solution w' = _nl_solution w
    ∧ _aux_solution w' = _aux_solution w
    ∧ _dirac_kernel_info w' = _dirac_kernel_info w
    ∧ _mproblem w' = _mproblem w
    ∧ _ref_mesh w' = _ref_mesh w
    ∧ _displacements w' = _displacements w
    ∧ _assembly_size w' = _assembly_size w
    ∧ distribution (getMesh (_mesh w')) = distribution (getMesh (_mesh w))
    ∧ (∀ id, processor_id <$> nodes (getMesh (_mesh w')) !! id
             = processor_id <$> nodes (getMesh (_mesh w)) !! id).
Proof.
  rewrite undisplaceMesh_run. eexists. split; [reflexivity |].
  repeat split; try reflexivity.
  - intros id n. apply NodeRange_complete.
  - intros id. cbn. apply undisplaced_nodes_owner.
Qed.
End OnMesh.

(** C1 (counterexample): the repair goes from the displaced mesh to the
    reference mesh, not the other way.  With the reference
    mesh replicated and the displaced mesh distributed, [updateMesh()] issues
    no collective at all and the displaced mesh stays distributed; with the
    displaced mesh replicated and the reference mesh distributed, it gathers
    the reference mesh. *)
Lemma updateMesh_never_replicates_displaced_mesh :
  (∃ w',
     DisplacedProblem.updateMesh
       (Scenario.constructed DistributedMesh.distributed DistributedMesh.replicated true)
     = Returned tt w'
     ∧ is_serial (getMesh (DisplacedProblem._ref_mesh
         (Scenario.constructed DistributedMesh.distributed DistributedMesh.replicated true)))
       = true
     ∧ is_serial (getMesh (DisplacedProblem._mesh
         (Scenario.constructed DistributedMesh.distributed DistributedMesh.replicated true)))
       = false
     ∧ List.filter is_replication (DisplacedProblem.calls w') = []
     ∧ is_serial (getMesh (DisplacedProblem._mesh w')) = false)
  ∧ (∃ w',
       DisplacedProblem.updateMesh
         (Scenario.constructed DistributedMesh.replicated DistributedMesh.distributed true)
       = Returned tt w'
       ∧ is_serial (getMesh (DisplacedProblem._ref_mesh
           (Scenario.constructed DistributedMesh.replicated DistributedMesh.distributed true)))
         = false
       ∧ List.filter is_replication (DisplacedProblem.calls w')
         = [on_mesh the_reference_mesh MeshCall.allgather]).
Proof.
  split; rewrite updateMesh_run; eexists; (split; [reflexivity |]);
    repeat split; vm_compute; reflexivity.
Qed.

(** C7: after the displacing visitor a node of the displaced mesh lies on
    reference coordinate + offset, and after the resetting visitor it lies on
    the reference coordinate itself, whatever the solution vectors hold: the
    reset copies the reference coordinate and does no arithmetic.  This holds
    for both overloads of [updateMesh].  In the scenario the nodes at 0, 1, 2
    with displacements 0, 0.1, 0.2 move to 0, 1.1, 2.2 and [undisplaceMesh]
    puts them back on 0, 1, 2. *)
Theorem displacement_round_trip :
  (∀ (D : Type) (L : LibMesh D) (w : DisplacedProblem.t D) (id : N) (dn : Node),
     nodes (getMesh (DisplacedProblem._mesh w)) !! id = Some dn →
     ∃ w1 w2,
       DisplacedProblem.updateMesh w = Returned tt w1
       ∧ DisplacedProblem.undisplaceMesh w1 = Returned tt w2
       ∧ ∀ rn, nodes (getMesh (DisplacedProblem._ref_mesh w1)) !! id = Some rn →
           nodes (getMesh (DisplacedProblem._mesh w1)) !! id
           = Some (set_coord
                     (DisplacedProblem.add_offset (coord rn)
                        (displacement_offset (DisplacedProblem._mproblem w)
                           (DisplacedProblem._displacements w)
                           (FEProblemBase.nl_currentSolution (DisplacedProblem._mproblem w))
                           (FEProblemBase.aux_currentSolution (DisplacedProblem._mproblem w))
                           id))
                     dn)
           ∧ nodes (getMesh (DisplacedProblem._mesh w2)) !! id
             = Some (set_coord (coord rn) dn))
  ∧ (∀ (D : Type) (L : LibMesh D) (w : DisplacedProblem.t D)
       (soln aux_soln : NumericVector) (id : N) (dn rn : Node),
       nodes (getMesh (DisplacedProblem._mesh w)) !! id = Some dn →
       nodes (getMesh (DisplacedProblem._ref_mesh w)) !! id = Some rn →
       ∃ w1 w2,
         DisplacedProblem.updateMesh2 soln aux_soln w = Returned tt w1
         ∧ DisplacedProblem.undisplaceMesh w1 = Returned tt w2
         ∧ nodes (getMesh (DisplacedProblem._mesh w1)) !! id
           = Some (set_coord
                     (DisplacedProblem.add_offset (coord rn)
                        (displacement_offset (DisplacedProblem._mproblem w)
                           (DisplacedProblem._displacements w) soln aux_soln id))
                     dn)
         ∧ nodes (getMesh (DisplacedProblem._mesh w2)) !! id
           = Some (set_coord (coord rn) dn))
  ∧ (∃ w1 w2,
       DisplacedProblem.updateMesh Scenario.problem = Returned tt w1
       ∧ DisplacedProblem.undisplaceMesh w1 = Returned tt w2
       ∧ displaced_coordinates Scenario.problem [0; 1; 2]
         = [Some [0%float]; Some [1%float]; Some [2%float]]
       ∧ displaced_coordinates w1 [0; 1; 2]
         = [Some [0%float]; Some [1.1%float]; Some [2.2%float]]
       ∧ displaced_coordinates w2 [0; 1; 2]
         = [Some [0%float]; Some [1%float]; Some [2%float]]).
Proof.
  split; [| split].
  - intros D L w id dn Hdn. rewrite updateMesh_run. eexists _, _.
    split; [reflexivity |]. rewrite undisplaceMesh_run. split; [reflexivity |].
    intros rn Hrn. cbn in Hrn.
    pose proof (displaced_nodes_lookup w (mkMooseMesh _)
                  (FEProblemBase.nl_currentSolution (DisplacedProblem._mproblem w))
                  (FEProblemBase.aux_currentSolution (DisplacedProblem._mproblem w))
                  id dn rn Hdn Hrn) as Hdisplaced.
    split; [exact Hdisplaced |].
    cbn [DisplacedProblem.set_nodes DisplacedProblem.set_mesh DisplacedProblem._mesh
         getMesh nodes].
    etrans; [eapply undisplaced_nodes_lookup; [exact Hdisplaced | exact Hrn] | reflexivity].
  - intros D L w soln aux_soln id dn rn Hdn Hrn. rewrite updateMesh2_run. eexists _, _.
    split; [reflexivity |]. rewrite undisplaceMesh_run. split; [reflexivity |].
    pose proof (displaced_nodes_lookup w _ soln aux_soln id dn rn Hdn Hrn) as Hdisplaced.
    split; [exact Hdisplaced |].
    cbn [DisplacedProblem.set_nodes DisplacedProblem.set_mesh DisplacedProblem._mesh
         getMesh nodes].
    etrans; [eapply undisplaced_nodes_lookup; [exact Hdisplaced | exact Hrn] | reflexivity].
  - rewrite updateMesh_run. eexists _, _. split; [reflexivity |].
    rewrite undisplaceMesh_run. split; [reflexivity |].
    repeat split; vm_compute; reflexivity.
Qed.

(** ** The theorems at the problem of the scenario *)


(** [reinitDirac] on element 0, which has one registered point. *)
Lemma reinitDirac_gating_at_scenario :
  ((0 < DisplacedProblem._assembly_size Scenario.problem)%nat
   ∧ N.of_nat (length (registered_points Scenario.problem 0)) < 2 ^ 32)
  ∧ ∃ b w' new,
      DisplacedProblem.reinitDirac 0 0%nat Scenario.problem = Returned b w'
      ∧ DisplacedProblem.calls w' = DisplacedProblem.calls Scenario.problem ++ new
      ∧ (b = true ↔ registered_points Scenario.problem 0 ≠ [])
      ∧ (b = false → List.filter is_physical_reinit new = [])
      ∧ (b = true →
         List.filter is_physical_reinit new =
           [on_assembly 0%nat
              (Assembly.reinitAtPhysical 0 (registered_points Scenario.problem 0))]).
Proof.
  assert (Htid : (0 < DisplacedProblem._assembly_size Scenario.problem)%nat)
    by (apply le_n).
  assert (Hfits : N.of_nat (length (registered_points Scenario.problem 0)) < 2 ^ 32)
    by (vm_compute; reflexivity).
  split; [split; assumption |].
  exact (reinitDirac_gating Scenario.problem 0 0%nat Htid Hfits).
Defined.

(** [prepare] on element 0, for a reference problem without a Jacobian. *)
Lemma prepare_skips_constant_jacobian_at_scenario :
  (0 < DisplacedProblem._assembly_size Scenario.problem)%nat
  ∧ ∃ w' new,
      DisplacedProblem.prepare 0 0%nat Scenario.problem = Returned tt w'
      ∧ DisplacedProblem.calls w' = DisplacedProblem.calls Scenario.problem ++ new
      ∧ new = [on_assembly 0%nat (Assembly.reinit 0);
               on_system displaced_nl (SystemBase.prepare 0%nat);
               on_system displaced_aux (SystemBase.prepare 0%nat)]
              ++ (if FEProblemBase.hasJacobian (DisplacedProblem._mproblem Scenario.problem)
                     && FEProblemBase.constJacobian
                          (DisplacedProblem._mproblem Scenario.problem)
                  then [] else [on_assembly 0%nat Assembly.prepareJacobianBlock])
              ++ [on_assembly 0%nat Assembly.prepareResidual]
      ∧ ((on_assembly 0%nat Assembly.prepareJacobianBlock ∉ new) ↔
           (FEProblemBase.hasJacobian (DisplacedProblem._mproblem Scenario.problem) = true
            ∧ FEProblemBase.constJacobian (DisplacedProblem._mproblem Scenario.problem)
              = true))
      ∧ on_assembly 0%nat Assembly.prepareResidual ∈ new.
Proof.
  assert (Htid : (0 < DisplacedProblem._assembly_size Scenario.problem)%nat)
    by (apply le_n).
  split; [assumption |].
  exact (prepare_skips_constant_jacobian Scenario.problem 0 0%nat Htid).
Defined.

(** [reinitDirac] on element 1, which has no registered point. *)
Lemma reinitDirac_without_points_prepares_at_scenario :
  ((0 < DisplacedProblem._assembly_size Scenario.problem)%nat
   ∧ registered_points Scenario.problem 1 = [])
  ∧ ∃ w',
      DisplacedProblem.reinitDirac 1 0%nat Scenario.problem = Returned false w'
      ∧ DisplacedProblem.calls w'
        = DisplacedProblem.calls Scenario.problem ++ [on_assembly 0%nat Assembly.prepare].
Proof.
  assert (Htid : (0 < DisplacedProblem._assembly_size Scenario.problem)%nat)
    by (apply le_n).
  assert (Hnone : registered_points Scenario.problem 1 = []) by reflexivity.
  split; [split; assumption |].
  exact (reinitDirac_without_points_prepares Scenario.problem 1 0%nat Htid Hnone).
Defined.

(** The round trip of node 1 of the scenario, which starts on 1. *)
Lemma displacement_round_trip_at_scenario :
  nodes (getMesh (DisplacedProblem._mesh Scenario.problem)) !! 1 = Some (mkNode 0 [1%float])
  ∧ ∃ w1 w2,
      DisplacedProblem.updateMesh Scenario.problem = Returned tt w1
      ∧ DisplacedProblem.undisplaceMesh w1 = Returned tt w2
      ∧ ∀ rn, nodes (getMesh (DisplacedProblem._ref_mesh w1)) !! 1 = Some rn →
          nodes (getMesh (DisplacedProblem._mesh w1)) !! 1
          = Some (set_coord
                    (DisplacedProblem.add_offset (coord rn)
                       (displacement_offset (DisplacedProblem._mproblem Scenario.problem)
                          (DisplacedProblem._displacements Scenario.problem)
                          (FEProblemBase.nl_currentSolution
                             (DisplacedProblem._mproblem Scenario.problem))
                          (FEProblemBase.aux_currentSolution
                             (DisplacedProblem._mproblem Scenario.problem))
                          1))
                    (mkNode 0 [1%float]))
          ∧ nodes (getMesh (DisplacedProblem._mesh w2)) !! 1
            = Some (set_coord (coord rn) (mkNode 0 [1%float])).
Proof.
  assert (Hnode : nodes (getMesh (DisplacedProblem._mesh Scenario.problem)) !! 1
                  = Some (mkNode 0 [1%float])) by reflexivity.
  split; [assumption |].
  exact (proj1 displacement_round_trip DistributedMesh.flags DistributedMesh.libmesh
           Scenario.problem 1 (mkNode 0 [1%float]) Hnode).
Defined.

(** * Further properties of the member functions *)

Lemma hasVariable_addVariable (s : DisplacedSystem.t) (v u : string) :
  DisplacedSystem.hasVariable (DisplacedSystem.addVariable v s) u
  = bool_decide (u = v) || DisplacedSystem.hasVariable s u.
Proof.
  unfold DisplacedSystem.hasVariable, DisplacedSystem.addVariable. simpl.
  destruct (decide (u = v)) as [->|Hne].
  - rewrite (bool_decide_eq_true_2 (v = v)) by done.
    apply bool_decide_eq_true_2, elem_of_union_l, elem_of_singleton. done.
  - rewrite (bool_decide_eq_false_2 (u = v)) by done. simpl.
    apply bool_decide_ext. rewrite elem_of_union, elem_of_singleton. tauto.
Qed.

Lemma hasScalarVariable_addScalarVariable (s : DisplacedSystem.t) (v u : string) :
  DisplacedSystem.hasScalarVariable (DisplacedSystem.addScalarVariable v s) u
  = bool_decide (u = v) || DisplacedSystem.hasScalarVariable s u.
Proof.
  unfold DisplacedSystem.hasScalarVariable, DisplacedSystem.addScalarVariable. simpl.
  destruct (decide (u = v)) as [->|Hne].
  - rewrite (bool_decide_eq_true_2 (v = v)) by done.
    apply bool_decide_eq_true_2, elem_of_union_l, elem_of_singleton. done.
  - rewrite (bool_decide_eq_false_2 (u = v)) by done. simpl.
    apply bool_decide_ext. rewrite elem_of_union, elem_of_singleton. tauto.
Qed.

Section Further.
Context {D : Type} `{!LibMesh D}.
Import DisplacedProblem.
Implicit Types w : DisplacedProblem.t D.

(** Only the last of two writes of the record shows. *)
Lemma set_calls_set_calls w (l l' : list Call) :
  set_calls l (set_calls l' w) = set_calls l w.
Proof. reflexivity. Qed.


(** X2: [updateMesh(soln, aux_soln)] issues no replication collective and
    leaves the reference mesh as it is, whatever the two meshes say about
    being serial; and [updateMesh()] does the same as [updateMesh] called
    with the reference problem's current solutions exactly when it issues no
    collective itself. *)
Theorem updateMesh_overloads w (soln aux_soln : NumericVector) :
  (∃ w' new,
     updateMesh2 soln aux_soln w = Returned tt w'
     ∧ calls w' = calls w ++ new
     ∧ List.filter is_replication new = []
     ∧ _ref_mesh w' = _ref_mesh w)
  ∧ (updateMesh w
     = updateMesh2 (FEProblemBase.nl_currentSolution (_mproblem w))
                   (FEProblemBase.aux_currentSolution (_mproblem w)) w
     ↔ repair_calls (getMesh (_mesh w)) (getMesh (_ref_mesh w)) = []).
Proof.
  split.
  - rewrite updateMesh2_run. eexists _, _.
    split; [reflexivity |]. split; [reflexivity |]. split; reflexivity.
  - rewrite updateMesh_run, updateMesh2_run. split.
    + intros Hsame.
      assert (Hcalls := f_equal (λ o, match o with
                                      | Returned _ s => calls s
                                      | _ => []
                                      end) Hsame).
      unfold updated in Hcalls. cbn [calls] in Hcalls.
      apply app_inv_head in Hcalls. simpl in Hcalls.
      injection Hcalls as Hcalls.
      by apply (app_inv_tail _ _ []) in Hcalls.
    + intros Hnone. rewrite Hnone.
      unfold repair_calls, after_gather_to_zero, after_allgather in *.
      destruct (is_serial (getMesh (_mesh w)) && negb (is_serial (getMesh (_ref_mesh w))));
        [discriminate Hnone |].
      destruct (is_serial_on_zero (getMesh (_mesh w))
                && negb (is_serial_on_zero (getMesh (_ref_mesh w))));
        [discriminate Hnone |].
      by destruct (_ref_mesh w).
Qed.


(** X4: [hasVariable] is an exact guard for the lookups of field variables:
    when it answers true, [getSystem], [getStandardVariable] and
    [getVectorVariable] all return, and name one and the same displaced
    system; when it answers false, all three stop with a fatal error.
    [hasScalarVariable] guards [getScalarVariable] in the same way. *)
Theorem has_guards_get w (tid : THREAD_ID) (var_name : string) :
  (∃ b,
     hasVariable var_name w = Returned b w
     ∧ (b = true →
        ∃ s, getSystem var_name w = Returned (system s) w
             ∧ getStandardVariable tid var_name w
               = Returned (FieldVariable s RealValue tid var_name) w
             ∧ getVectorVariable tid var_name w
               = Returned (FieldVariable s RealVectorValue tid var_name) w)
     ∧ (b = false →
        is_Fatal (getSystem var_name w)
        ∧ is_Fatal (getStandardVariable tid var_name w)
        ∧ is_Fatal (getVectorVariable tid var_name w)))
  ∧ (∃ b,
       hasScalarVariable var_name w = Returned b w
       ∧ (b = true →
          ∃ s, getScalarVariable tid var_name w = Returned (ScalarVariable s tid var_name) w)
       ∧ (b = false → is_Fatal (getScalarVariable tid var_name w))).
Proof.
  unfold hasVariable, hasScalarVariable, getSystem, getStandardVariable, getVectorVariable,
    getScalarVariable, is_Fatal.
  run.
  split.
  - destruct (DisplacedSystem.hasVariable (_displaced_nl w) var_name);
      [| destruct (DisplacedSystem.hasVariable (_displaced_aux w) var_name)];
      simpl; eexists; (split; [reflexivity |]); split; intros Hb; try discriminate Hb;
      eauto 10.
  - destruct (DisplacedSystem.hasScalarVariable (_displaced_nl w) var_name);
      [| destruct (DisplacedSystem.hasScalarVariable (_displaced_aux w) var_name)];
      simpl; eexists; (split; [reflexivity |]); split; intros Hb; try discriminate Hb;
      eauto.
Qed.

(** X5: a variable added to the displaced problem is found afterwards.
    After [addVariable] the lookups of that name resolve to the displaced
    primary system; after [addAuxVariable] they resolve to the displaced
    auxiliary system unless the primary system holds the name, which then
    shadows it.  The answers of [hasVariable] for every other name stay as
    they were.  [addScalarVariable] and [addAuxScalarVariable] relate to
    [getScalarVariable] in the same way. *)
Theorem added_variable_is_found w (tid : THREAD_ID) (var_name : string) :
  (∃ w',
     addVariable var_name w = Returned tt w'
     ∧ hasVariable var_name w' = Returned true w'
     ∧ getSystem var_name w' = Returned (system displaced_nl) w'
     ∧ getStandardVariable tid var_name w'
       = Returned (FieldVariable displaced_nl RealValue tid var_name) w'
     ∧ ∀ other, other ≠ var_name →
         ∃ b, hasVariable other w = Returned b w ∧ hasVariable other w' = Returned b w')
  ∧ (∃ w',
       addAuxVariable var_name w = Returned tt w'
       ∧ hasVariable var_name w' = Returned true w'
       ∧ getSystem var_name w'
         = Returned (system (if DisplacedSystem.hasVariable (_displaced_nl w) var_name
                             then displaced_nl else displaced_aux)) w'
       ∧ ∀ other, other ≠ var_name →
           ∃ b, hasVariable other w = Returned b w ∧ hasVariable other w' = Returned b w')
  ∧ (∃ w',
       addScalarVariable var_name w = Returned tt w'
       ∧ hasScalarVariable var_name w' = Returned true w'
       ∧ getScalarVariable tid var_name w'
         = Returned (ScalarVariable displaced_nl tid var_name) w')
  ∧ (∃ w',
       addAuxScalarVariable var_name w = Returned tt w'
       ∧ hasScalarVariable var_name w' = Returned true w'
       ∧ getScalarVariable tid var_name w'
         = Returned (ScalarVariable
                       (if DisplacedSystem.hasScalarVariable (_displaced_nl w) var_name
                        then displaced_nl else displaced_aux) tid var_name) w').
Proof.
  unfold addVariable, addAuxVariable, addScalarVariable, addAuxScalarVariable,
    hasVariable, hasScalarVariable, getSystem, getStandardVariable, getScalarVariable.
  run.
  repeat split; eexists; (split; [reflexivity |]); run;
    rewrite ?hasVariable_addVariable, ?hasScalarVariable_addScalarVariable,
      ?(bool_decide_eq_true_2 (var_name = var_name)) by done; simpl.
  - repeat (split; [reflexivity |]). intros other Hother.
    rewrite hasVariable_addVariable, (bool_decide_eq_false_2 _ Hother). simpl.
    destruct (DisplacedSystem.hasVariable (_displaced_nl w) other),
             (DisplacedSystem.hasVariable (_displaced_aux w) other); eauto.
  - destruct (DisplacedSystem.hasVariable (_displaced_nl w) var_name); simpl;
      (repeat (split; [reflexivity |])); intros other Hother;
      rewrite hasVariable_addVariable, (bool_decide_eq_false_2 _ Hother); simpl;
      destruct (DisplacedSystem.hasVariable (_displaced_nl w) other),
               (DisplacedSystem.hasVariable (_displaced_aux w) other); eauto.
  - split; reflexivity.
  - destruct (DisplacedSystem.hasScalarVariable (_displaced_nl w) var_name); simpl;
      split; reflexivity.
Qed.

Lemma reinitDirac_run w (elem : Elem) (tid : THREAD_ID) :
  (tid < _assembly_size w)%nat →
  reinitDirac elem tid w
  = Returned (0 <? n_points w elem)
      (set_calls
         (calls w
          ++ (if n_points w elem =? 0 then []
              else [on_assembly tid
                      (Assembly.reinitAtPhysical elem (registered_points w elem));
                    on_system displaced_nl (SystemBase.prepare tid);
                    on_system displaced_aux (SystemBase.prepare tid);
                    on_system displaced_nl (SystemBase.reinitElem elem tid);
                    on_system displaced_aux (SystemBase.reinitElem elem tid)])
          ++ [on_assembly tid Assembly.prepare])
         (set_dirac_kernel_info (after_subscript (_dirac_kernel_info w) elem) w)).
Proof.
  intros Htid. unfold n_points, registered_points, after_subscript.
  unfold reinitDirac, getPoints_subscript, reinitElem.
  destruct w as [mproblem mesh ref_mesh displacements nl aux nl_soln aux_soln
                   dirac n_threads record].
  cbn [_dirac_kernel_info _assembly_size calls] in *. run.
  destruct (dirac !! elem) as [entry|]; run;
    destruct (N.of_nat (length _) mod 2 ^ 32 =? 0); simpl; run_on Htid;
    cbn; by rewrite <- ?app_assoc.
Qed.

Lemma registered_points_after_subscript w (elem e : Elem) :
  registered_points (set_dirac_kernel_info (after_subscript (_dirac_kernel_info w) elem) w) e
  = registered_points w e.
Proof.
  unfold registered_points, after_subscript. cbn [_dirac_kernel_info set_dirac_kernel_info].
  destruct (_dirac_kernel_info w !! elem) as [entry|] eqn:Helem; [done |].
  destruct (decide (e = elem)) as [->|Hne].
  - by rewrite lookup_insert_eq, Helem.
  - by rewrite lookup_insert_ne.
Qed.

(** X6: [reinitDirac] never changes the points registered for any element.
    Subscripting the point map leaves an empty entry behind for an element
    that had none, and nothing else in the map changes; a map that knows
    the element stays as it is.  Asked again, [reinitDirac] gives the same
    answer. *)
Theorem reinitDirac_keeps_registered_points w (elem : Elem) (tid : THREAD_ID) :
  (tid < _assembly_size w)%nat →
  ∃ b w',
    reinitDirac elem tid w = Returned b w'
    ∧ (∀ e, registered_points w' e = registered_points w e)
    ∧ is_Some (_dirac_kernel_info w' !! elem)
    ∧ (∀ e, e ≠ elem → _dirac_kernel_info w' !! e = _dirac_kernel_info w !! e)
    ∧ (is_Some (_dirac_kernel_info w !! elem) →
       _dirac_kernel_info w' = _dirac_kernel_info w)
    ∧ ∃ w'', reinitDirac elem tid w' = Returned b w''.
Proof.
  intros Htid. rewrite (reinitDirac_run w elem tid Htid). eexists _, _.
  split; [reflexivity |].
  assert (Hpoints : ∀ e,
    registered_points
      (set_calls
         (calls w
          ++ (if n_points w elem =? 0 then []
              else [on_assembly tid
                      (Assembly.reinitAtPhysical elem (registered_points w elem));
                    on_system displaced_nl (SystemBase.prepare tid);
                    on_system displaced_aux (SystemBase.prepare tid);
                    on_system displaced_nl (SystemBase.reinitElem elem tid);
                    on_system displaced_aux (SystemBase.reinitElem elem tid)])
          ++ [on_assembly tid Assembly.prepare])
         (set_dirac_kernel_info (after_subscript (_dirac_kernel_info w) elem) w)) e
    = registered_points w e)
    by (intros e; apply (registered_points_after_subscript w elem e)).
  split; [exact Hpoints |].
  cbn [_dirac_kernel_info set_calls set_dirac_kernel_info]. unfold after_subscript.
  split; [| split; [| split]].
  - destruct (_dirac_kernel_info w !! elem) eqn:Helem; [by rewrite Helem |].
    rewrite lookup_insert_eq. by eexists.
  - intros e Hne. destruct (_dirac_kernel_info w !! elem); [done |].
    by rewrite lookup_insert_ne.
  - intros [entry Hentry]. by rewrite Hentry.
  - rewrite reinitDirac_run by exact Htid. unfold n_points. rewrite Hpoints.
    eexists. reflexivity.
Qed.

(** X7: on an element whose registered points count as some, [reinitDirac]
    makes exactly the calls of [reinitElemPhys] at these points, in another
    order: it calls [prepare] on the [Assembly] last, after the systems'
    [reinitElem], where [reinitElemPhys] calls it before them. *)
Theorem reinitDirac_reorders_reinitElemPhys w (elem : Elem) (tid : THREAD_ID) :
  (tid < _assembly_size w)%nat →
  n_points w elem ≠ 0 →
  ∃ w1 w2 new1 new2,
    reinitDirac elem tid w = Returned true w1
    ∧ calls w1 = calls w ++ new1
    ∧ reinitElemPhys elem (registered_points w elem) tid w = Returned tt w2
    ∧ calls w2 = calls w ++ new2
    ∧ new1 ≡ₚ new2
    ∧ new1 ≠ new2
    ∧ last new1 = Some (on_assembly tid Assembly.prepare)
    ∧ last new2 = Some (on_system displaced_aux (SystemBase.reinitElem elem tid)).
Proof.
  intros Htid Hsome. rewrite (reinitDirac_run w elem tid Htid).
  assert (Hpos : (0 <? n_points w elem) = true) by (apply N.ltb_lt; lia).
  apply N.eqb_neq in Hsome. rewrite Hsome, Hpos.
  unfold reinitElemPhys, reinitElem. run_on Htid.
  eexists _, _, _, _. split; [reflexivity |]. split; [reflexivity |].
  split; [reflexivity |]. split; [collect_calls |].
  split; [| split; [| split; reflexivity]].
  - simpl. do 3 apply Permutation_skip.
    symmetry. apply (Permutation_cons_append [_; _]).
  - simpl. intros Heq. discriminate Heq.
Qed.

(** X8: a forwarding operation called for a thread makes calls for that
    thread only: every call that [prepare], [prepareFace], [reinitDirac] and
    the reinitialization operations make, on an [Assembly] or on a displaced
    system, carries the thread id the operation was given. *)
Theorem calls_stay_on_thread w (op : Reinit) (elem : Elem) (tid : THREAD_ID) :
  (thread_of op < _assembly_size w)%nat →
  neighbor_exists op →
  (tid < _assembly_size w)%nat →
  (∃ w' new, run_reinit op w = Returned tt w' ∧ calls w' = calls w ++ new
             ∧ Forall (λ c, call_thread c = Some (thread_of op)) new)
  ∧ (∃ w' new, prepare elem tid w = Returned tt w' ∧ calls w' = calls w ++ new
               ∧ Forall (λ c, call_thread c = Some tid) new)
  ∧ (∃ w' new, prepareFace elem tid w = Returned tt w' ∧ calls w' = calls w ++ new
               ∧ Forall (λ c, call_thread c = Some tid) new)
  ∧ (∃ b w' new, reinitDirac elem tid w = Returned b w' ∧ calls w' = calls w ++ new
                 ∧ Forall (λ c, call_thread c = Some tid) new).
Proof.
  intros Hop Hneighbor Htid. split; [| split; [| split]].
  - destruct op; simpl in Hop, Hneighbor; simpl run_reinit.
    8: destruct Hneighbor as [neighbor Hneighbor]; unfold reinitNeighbor;
       rewrite Hneighbor.
    all: unfold reinitElem, reinitElemPhys, reinitElemFace, reinitNode, reinitNodeFace,
           reinitNodes, reinitNodesNeighbor, reinitNeighborPhys_side,
           reinitNeighborPhys, reinitScalars, prepareAssemblyNeighbor;
         run_on Hop;
         (eexists _, _; split; [reflexivity |]; split; [collect_calls |]);
         simpl; same_thread.
  - unfold prepare. run_on Htid.
    destruct (negb (FEProblemBase.hasJacobian (_mproblem w))
              || negb (FEProblemBase.constJacobian (_mproblem w)));
      run_on Htid;
      (eexists _, _; split; [reflexivity |]; split; [collect_calls |]);
      simpl; same_thread.
  - unfold prepareFace. run.
    eexists _, _. split; [reflexivity |]. split; [collect_calls |]. simpl. same_thread.
  - rewrite (reinitDirac_run w elem tid Htid). eexists _, _, _.
    split; [reflexivity |]. split; [reflexivity |].
    destruct (n_points w elem =? 0); simpl; same_thread.
Qed.

(** X9: bounds.  With a thread id past the end of [_assembly], [prepare],
    [prepareAssembly], [prepareAssemblyNeighbor], [reinitDirac] and the
    reinitialization operations that index [_assembly] are undefined, while
    [reinitElem], [reinitNodes], [reinitNodesNeighbor], [reinitScalars] and
    [prepareFace], which only forward to the systems, return.  On a side
    without a neighbour [reinitNeighbor] is undefined for every thread id. *)
Theorem out_of_range_thread w (op : Reinit) (elem : Elem) (side : N) (tid : THREAD_ID) :
  (_assembly_size w ≤ thread_of op)%nat →
  (_assembly_size w ≤ tid)%nat →
  (run_reinit op w = Undefined ↔ uses_assembly op = true)
  ∧ (uses_assembly op = false → ∃ w', run_reinit op w = Returned tt w')
  ∧ prepare elem tid w = Undefined
  ∧ prepareAssembly tid w = Undefined
  ∧ prepareAssemblyNeighbor tid w = Undefined
  ∧ reinitDirac elem tid w = Undefined
  ∧ (∃ w', prepareFace elem tid w = Returned tt w')
  ∧ (neighbor_ptr elem side = None → ∀ tid', reinitNeighbor elem side tid' w = Undefined).
Proof.
  intros Hop Htid.
  assert (Hop' : ¬ (thread_of op < _assembly_size w)%nat) by lia.
  assert (Htid' : ¬ (tid < _assembly_size w)%nat) by lia.
  split; [| split; [| split; [| split; [| split; [| split; [| split]]]]]].
  - destruct op; simpl in Hop'; simpl run_reinit; simpl uses_assembly;
      unfold reinitElem, reinitElemPhys, reinitElemFace, reinitNode, reinitNodeFace,
        reinitNodes, reinitNodesNeighbor, reinitNeighbor, reinitNeighborPhys_side,
        reinitNeighborPhys, reinitScalars, prepareAssemblyNeighbor;
      try (destruct (neighbor_ptr elem0 side0));
      run; rewrite ?(bool_decide_eq_false_2 _ Hop'); split; done.
  - destruct op; simpl; try discriminate; intros _;
      unfold reinitElem, reinitNodes, reinitNodesNeighbor, reinitScalars; run;
      eexists; reflexivity.
  - unfold prepare. run. by rewrite (bool_decide_eq_false_2 _ Htid').
  - unfold prepareAssembly. run. by rewrite (bool_decide_eq_false_2 _ Htid').
  - unfold prepareAssemblyNeighbor. run. by rewrite (bool_decide_eq_false_2 _ Htid').
  - unfold reinitDirac, getPoints_subscript. run.
    destruct (_dirac_kernel_info w !! elem); run;
      destruct (negb _); run; by rewrite ?(bool_decide_eq_false_2 _ Htid').
  - unfold prepareFace. run. eexists. reflexivity.
  - intros Hnull tid'. unfold reinitNeighbor. by rewrite Hnull.
Qed.

(** X10: what [reinitDirac] answers depends on the number of registered
    points as an [unsigned int]: it returns true exactly when that number is
    not a multiple of 2^32.  When it returns false its only call is
    [prepare] on the thread's [Assembly]; when it returns true its only
    reinitialization at physical points is that of the thread's [Assembly] at
    the registered points. *)
Theorem reinitDirac_counts_modulo w (elem : Elem) (tid : THREAD_ID) :
  (tid < _assembly_size w)%nat →
  ∃ b w' new,
    reinitDirac elem tid w = Returned b w'
    ∧ calls w' = calls w ++ new
    ∧ (b = true ↔ N.of_nat (length (registered_points w elem)) mod 2 ^ 32 ≠ 0)
    ∧ (b = false → new = [on_assembly tid Assembly.prepare])
    ∧ (b = true →
       List.filter is_physical_reinit new
       = [on_assembly tid (Assembly.reinitAtPhysical elem (registered_points w elem))]).
Proof.
  intros Htid. rewrite (reinitDirac_run w elem tid Htid). eexists _, _, _.
  split; [reflexivity |]. split; [reflexivity |].
  fold (n_points w elem).
  destruct (n_points w elem =? 0) eqn:Hzero.
  - apply N.eqb_eq in Hzero. rewrite Hzero. simpl.
    split; [split; [discriminate | done] |]. split; [done | discriminate].
  - apply N.eqb_neq in Hzero.
    assert (Hpos : (0 <? n_points w elem) = true) by (apply N.ltb_lt; lia).
    rewrite Hpos. split; [done |]. split; [discriminate | reflexivity].
Qed.

(** X11: the operations called from the element loops change no member of
    the displaced problem: [prepare], [prepareFace] and every
    reinitialization operation return the state they were given, meshes,
    systems, solution pointers and Dirac points included, with nothing but
    calls added to the record. *)
Theorem forwarding_changes_only_the_record w (op : Reinit) (elem : Elem) (tid : THREAD_ID) :
  (thread_of op < _assembly_size w)%nat →
  neighbor_exists op →
  (tid < _assembly_size w)%nat →
  (∃ new, run_reinit op w = Returned tt (set_calls (calls w ++ new) w))
  ∧ (∃ new, prepare elem tid w = Returned tt (set_calls (calls w ++ new) w))
  ∧ (∃ new, prepareFace elem tid w = Returned tt (set_calls (calls w ++ new) w)).
Proof.
  intros Hop Hneighbor Htid. split; [| split].
  - destruct op; simpl in Hop, Hneighbor; simpl run_reinit.
    8: destruct Hneighbor as [neighbor Hneighbor]; unfold reinitNeighbor;
       rewrite Hneighbor.
    all: unfold reinitElemPhys, reinitElemFace, reinitNode, reinitNodeFace,
           reinitNodes, reinitNodesNeighbor, reinitNeighborPhys_side,
           reinitNeighborPhys, reinitScalars, prepareAssemblyNeighbor;
         unfold reinitElem;
         run_on Hop; rewrite ?set_calls_set_calls, <- ?app_assoc; eexists; reflexivity.
  - unfold prepare. run_on Htid.
    destruct (negb (FEProblemBase.hasJacobian (_mproblem w))
              || negb (FEProblemBase.constJacobian (_mproblem w)));
      run_on Htid; rewrite ?set_calls_set_calls, <- ?app_assoc; eexists; reflexivity.
  - unfold prepareFace. run. rewrite ?set_calls_set_calls, <- ?app_assoc.
    eexists. reflexivity.
Qed.
End Further.

(** ** The further properties at the problem of the scenario *)

(** [reinitDirac] on element 1, unknown to the Dirac point map. *)
Lemma reinitDirac_keeps_registered_points_at_scenario :
  (0 < DisplacedProblem._assembly_size Scenario.problem)%nat
  ∧ ∃ b w',
      DisplacedProblem.reinitDirac 1 0%nat Scenario.problem = Returned b w'
      ∧ (∀ e, registered_points w' e = registered_points Scenario.problem e)
      ∧ is_Some (DisplacedProblem._dirac_kernel_info w' !! 1)
      ∧ (∀ e, e ≠ 1 → DisplacedProblem._dirac_kernel_info w' !! e
                      = DisplacedProblem._dirac_kernel_info Scenario.problem !! e)
      ∧ (is_Some (DisplacedProblem._dirac_kernel_info Scenario.problem !! 1) →
         DisplacedProblem._dirac_kernel_info w'
         = DisplacedProblem._dirac_kernel_info Scenario.problem)
      ∧ ∃ w'', DisplacedProblem.reinitDirac 1 0%nat w' = Returned b w''.
Proof.
  assert (Htid : (0 < DisplacedProblem._assembly_size Scenario.problem)%nat)
    by (apply le_n).
  split; [assumption |].
  exact (reinitDirac_keeps_registered_points Scenario.problem 1 0%nat Htid).
Defined.

(** [reinitDirac] and [reinitElemPhys] on element 0 and its one point. *)
Lemma reinitDirac_reorders_reinitElemPhys_at_scenario :
  ((0 < DisplacedProblem._assembly_size Scenario.problem)%nat
   ∧ n_points Scenario.problem 0 ≠ 0)
  ∧ ∃ w1 w2 new1 new2,
      DisplacedProblem.reinitDirac 0 0%nat Scenario.problem = Returned true w1
      ∧ DisplacedProblem.calls w1 = DisplacedProblem.calls Scenario.problem ++ new1
      ∧ DisplacedProblem.reinitElemPhys 0 (registered_points Scenario.problem 0) 0%nat
          Scenario.problem = Returned tt w2
      ∧ DisplacedProblem.calls w2 = DisplacedProblem.calls Scenario.problem ++ new2
      ∧ new1 ≡ₚ new2
      ∧ new1 ≠ new2
      ∧ last new1 = Some (on_assembly 0%nat Assembly.prepare)
      ∧ last new2 = Some (on_system displaced_aux (SystemBase.reinitElem 0 0%nat)).
Proof.
  assert (Htid : (0 < DisplacedProblem._assembly_size Scenario.problem)%nat)
    by (apply le_n).
  assert (Hsome : n_points Scenario.problem 0 ≠ 0) by (vm_compute; discriminate).
  split; [split; assumption |].
  exact (reinitDirac_reorders_reinitElemPhys Scenario.problem 0 0%nat Htid Hsome).
Defined.

(** [reinitNeighbor] of element 0 across side 1 and the operations on element
    0, all on thread 0. *)
Lemma calls_stay_on_thread_at_scenario :
  ((0 < DisplacedProblem._assembly_size Scenario.problem)%nat
   ∧ DisplacedProblem.neighbor_exists (D := DistributedMesh.flags)
       (DisplacedProblem.ReinitNeighbor 0 1 0%nat))
  ∧ (∃ w' new,
       DisplacedProblem.run_reinit (DisplacedProblem.ReinitNeighbor 0 1 0%nat)
         Scenario.problem = Returned tt w'
       ∧ DisplacedProblem.calls w' = DisplacedProblem.calls Scenario.problem ++ new
       ∧ Forall (λ c, call_thread c = Some 0%nat) new)
  ∧ (∃ w' new,
       DisplacedProblem.prepare 0 0%nat Scenario.problem = Returned tt w'
       ∧ DisplacedProblem.calls w' = DisplacedProblem.calls Scenario.problem ++ new
       ∧ Forall (λ c, call_thread c = Some 0%nat) new)
  ∧ (∃ w' new,
       DisplacedProblem.prepareFace 0 0%nat Scenario.problem = Returned tt w'
       ∧ DisplacedProblem.calls w' = DisplacedProblem.calls Scenario.problem ++ new
       ∧ Forall (λ c, call_thread c = Some 0%nat) new)
  ∧ (∃ b w' new,
       DisplacedProblem.reinitDirac 0 0%nat Scenario.problem = Returned b w'
       ∧ DisplacedProblem.calls w' = DisplacedProblem.calls Scenario.problem ++ new
       ∧ Forall (λ c, call_thread c = Some 0%nat) new).
Proof.
  assert (Htid : (0 < DisplacedProblem._assembly_size Scenario.problem)%nat)
    by (apply le_n).
  assert (Hneighbor : DisplacedProblem.neighbor_exists (D := DistributedMesh.flags)
                        (DisplacedProblem.ReinitNeighbor 0 1 0%nat))
    by (exists 1; reflexivity).
  split; [split; assumption |].
  exact (calls_stay_on_thread Scenario.problem
           (DisplacedProblem.ReinitNeighbor 0 1 0%nat) 0 0%nat Htid Hneighbor Htid).
Defined.

(** Thread 1 of a problem with one thread: [reinitNode] and the operations
    on element 0, the first element of the chain, whose side 0 has no
    neighbour. *)
Lemma out_of_range_thread_at_scenario :
  (DisplacedProblem._assembly_size Scenario.problem ≤ 1)%nat
  ∧ (DisplacedProblem.run_reinit (DisplacedProblem.ReinitNode 0 1%nat) Scenario.problem
     = Undefined
     ↔ uses_assembly (DisplacedProblem.ReinitNode 0 1%nat) = true)
  ∧ (uses_assembly (DisplacedProblem.ReinitNode 0 1%nat) = false →
     ∃ w', DisplacedProblem.run_reinit (DisplacedProblem.ReinitNode 0 1%nat)
             Scenario.problem = Returned tt w')
  ∧ DisplacedProblem.prepare 0 1%nat Scenario.problem = Undefined
  ∧ DisplacedProblem.prepareAssembly 1%nat Scenario.problem = Undefined
  ∧ DisplacedProblem.prepareAssemblyNeighbor 1%nat Scenario.problem = Undefined
  ∧ DisplacedProblem.reinitDirac 0 1%nat Scenario.problem = Undefined
  ∧ (∃ w', DisplacedProblem.prepareFace 0 1%nat Scenario.problem = Returned tt w')
  ∧ (neighbor_ptr 0 0 = None →
     ∀ tid', DisplacedProblem.reinitNeighbor 0 0 tid' Scenario.problem = Undefined).
Proof.
  assert (Htid : (DisplacedProblem._assembly_size Scenario.problem ≤ 1)%nat)
    by (apply le_n).
  split; [assumption |].
  exact (out_of_range_thread Scenario.problem (DisplacedProblem.ReinitNode 0 1%nat)
           0 0 1%nat Htid Htid).
Defined.

(** [reinitDirac] on element 0, which has one registered point. *)
Lemma reinitDirac_counts_modulo_at_scenario :
  (0 < DisplacedProblem._assembly_size Scenario.problem)%nat
  ∧ ∃ b w' new,
      DisplacedProblem.reinitDirac 0 0%nat Scenario.problem = Returned b w'
      ∧ DisplacedProblem.calls w' = DisplacedProblem.calls Scenario.problem ++ new
      ∧ (b = true ↔
           N.of_nat (length (registered_points Scenario.problem 0)) mod 2 ^ 32 ≠ 0)
      ∧ (b = false → new = [on_assembly 0%nat Assembly.prepare])
      ∧ (b = true →
         List.filter is_physical_reinit new
         = [on_assembly 0%nat
              (Assembly.reinitAtPhysical 0 (registered_points Scenario.problem 0))]).
Proof.
  assert (Htid : (0 < DisplacedProblem._assembly_size Scenario.problem)%nat)
    by (apply le_n).
  split; [assumption |].
  exact (reinitDirac_counts_modulo Scenario.problem 0 0%nat Htid).
Defined.

(** [reinitNeighbor] of element 0 across side 1, [prepare] and [prepareFace]
    on element 0, all on thread 0. *)
Lemma forwarding_changes_only_the_record_at_scenario :
  ((0 < DisplacedProblem._assembly_size Scenario.problem)%nat
   ∧ DisplacedProblem.neighbor_exists (D := DistributedMesh.flags)
       (DisplacedProblem.ReinitNeighbor 0 1 0%nat))
  ∧ (∃ new,
       DisplacedProblem.run_reinit (DisplacedProblem.ReinitNeighbor 0 1 0%nat)
         Scenario.problem
       = Returned tt (DisplacedProblem.set_calls
                        (DisplacedProblem.calls Scenario.problem ++ new) Scenario.problem))
  ∧ (∃ new,
       DisplacedProblem.prepare 0 0%nat Scenario.problem
       = Returned tt (DisplacedProblem.set_calls
                        (DisplacedProblem.calls Scenario.problem ++ new) Scenario.problem))
  ∧ (∃ new,
       DisplacedProblem.prepareFace 0 0%nat Scenario.problem
       = Returned tt (DisplacedProblem.set_calls
                        (DisplacedProblem.calls Scenario.problem ++ new) Scenario.problem)).
Proof.
  assert (Htid : (0 < DisplacedProblem._assembly_size Scenario.problem)%nat)
    by (apply le_n).
  assert (Hneighbor : DisplacedProblem.neighbor_exists (D := DistributedMesh.flags)
                        (DisplacedProblem.ReinitNeighbor 0 1 0%nat))
    by (exists 1; reflexivity).
  split; [split; assumption |].
  exact (forwarding_changes_only_the_record Scenario.problem
           (DisplacedProblem.ReinitNeighbor 0 1 0%nat) 0 0%nat Htid Hneighbor Htid).
Defined.
